(** * SAAF: the Self-Auditing Async Flow

    A shallow embedding of [index.js]: the static methods
    [SAAF.computeAuditRoot] and [SAAF.execute], followed by the properties
    of the step-execution state machine and of the audit chain.

    Conventions.
    - JavaScript numbers that the engine handles (indices, counters,
      timestamps, [maxIterations], [delayMs]) are integers, modelled in [Z].
    - One run is modelled in program order; an [await] is sequencing.
    - The caller's capabilities are functions over a caller-owned world [W]
      that they may read and change; they return a value or throw.
    - State values are immutable: the engine only passes them on, and a
      capability hands back a state rather than changing one in place. The
      [steps] array does not change during a run.
    - [Date.now], the [setTimeout] pause, SHA-256 and [JSON.stringify] come
      from the host platform and are interfaces here.
    - A string stands for its UTF-8 bytes. *)

From Stdlib Require Import ZArith String Ascii List Bool Lia.
From Stdlib Require Import DecimalString DecimalPos DecimalZ.
Import ListNotations.

Local Open Scope string_scope.
Local Open Scope list_scope.
Local Open Scope Z_scope.

(* ================================================================== *)
(** * Data model *)
(* ================================================================== *)

(** A thrown value: an instance of [Error] with its [name] and [message],
    or any other value, kept as its [String(e)] rendering. *)
Inductive Exn : Type :=
| ErrorObj (name message : string)
| NonError (text : string).

(** [e instanceof Error ? e.message : String(e)] *)
Definition errorText (e : Exn) : string :=
  match e with
  | ErrorObj _ message => message
  | NonError text => text
  end.

(** The completion of a call: a returned value or a thrown one. *)
Inductive Result (A : Type) : Type :=
| Returns (a : A)
| Throws (e : Exn).
Arguments Returns {A} a.
Arguments Throws {A} e.

(** What [critique] may hand back, and what an entry's [critiques] field may
    hold: a falsy value ([undefined], [null], [false], [0], the empty
    string), an array, or some other truthy value that is not an array (an
    object, a non-empty string, a Promise from an [async] critique). *)
Inductive CritiqueValue (Issue : Type) : Type :=
| Falsy
| Arr (elems : list Issue)
| Truthy.
Arguments Falsy {Issue}.
Arguments Arr {Issue} elems.
Arguments Truthy {Issue}.

(** [Array.isArray(v)] *)
Definition Array_isArray {Issue} (v : CritiqueValue Issue) : bool :=
  match v with Arr _ => true | _ => false end.

(** The elements of [v] when it is an array. *)
Definition Array_elems {Issue} (v : CritiqueValue Issue) : list Issue :=
  match v with Arr l => l | _ => [] end.

(** [v.length], read only where [v] is known to be an array. *)
Definition Array_length {Issue} (v : CritiqueValue Issue) : Z :=
  Z.of_nat (List.length (Array_elems v)).

(** [v || []] *)
Definition orEmptyArray {Issue} (v : CritiqueValue Issue) : CritiqueValue Issue :=
  match v with Falsy => Arr [] | _ => v end.

(** An audit entry. A field that an object literal leaves out reads as
    [undefined]: [None]. *)
Record AuditEntry (State Issue : Type) : Type := mkEntry {
  stepIndex : Z;
  ts : Z;
  phase : string;
  error : option string;
  inputState : option State;
  draftState : option State;
  critiques : option (CritiqueValue Issue);
  finalState : option State;
  iterations : option Z
}.
Arguments mkEntry {State Issue}.
Arguments stepIndex {State Issue} _.
Arguments ts {State Issue} _.
Arguments phase {State Issue} _.
Arguments error {State Issue} _.
Arguments inputState {State Issue} _.
Arguments draftState {State Issue} _.
Arguments critiques {State Issue} _.
Arguments finalState {State Issue} _.
Arguments iterations {State Issue} _.

(* ================================================================== *)
(** * AuditChain: [SAAF.computeAuditRoot] *)
(* ================================================================== *)

(** A state in the hashed payload, or the literal [null]. *)
Inductive OrNull (A : Type) : Type :=
| Null
| Val (a : A).
Arguments Null {A}.
Arguments Val {A} a.

(** [x === undefined ? null : x] *)
Definition undefinedToNull {A} (x : option A) : OrNull A :=
  match x with None => Null | Some a => Val a end.

(** The object literal [payload] of [computeAuditRoot], keys in the order
    they are written. *)
Record Payload (State : Type) : Type := mkPayload {
  p_stepIndex : Z;
  p_ts : Z;
  p_phase : string;
  p_critiqueCount : Z;
  p_inputState : OrNull State;
  p_draftState : OrNull State;
  p_finalState : OrNull State
}.
Arguments mkPayload {State}.
Arguments p_stepIndex {State} _.
Arguments p_ts {State} _.
Arguments p_phase {State} _.
Arguments p_critiqueCount {State} _.
Arguments p_inputState {State} _.
Arguments p_draftState {State} _.
Arguments p_finalState {State} _.

(** The platform services the chain relies on: the SHA-256 compression of a
    byte string (Node's [crypto]) and [JSON.stringify] on a payload. *)
Class Platform (State : Type) : Type := {
  sha256 : list Byte.byte -> list Byte.byte;
  JSON_stringify : Payload State -> string
}.

(** [Buffer.from(s)]: the bytes of the string. *)
Definition Buffer_from (s : string) : list Byte.byte := list_byte_of_string s.

(** One lowercase hexadecimal digit. *)
Definition hexDigit (n : nat) : ascii :=
  match n with
  | 0%nat => "0" | 1%nat => "1" | 2%nat => "2" | 3%nat => "3"
  | 4%nat => "4" | 5%nat => "5" | 6%nat => "6" | 7%nat => "7"
  | 8%nat => "8" | 9%nat => "9" | 10%nat => "a" | 11%nat => "b"
  | 12%nat => "c" | 13%nat => "d" | 14%nat => "e" | _ => "f"
  end%char.

(** [buf.toString("hex")]: two digits per byte, high nibble first. *)
Fixpoint Buffer_toHex (buf : list Byte.byte) : string :=
  match buf with
  | [] => EmptyString
  | b :: rest =>
      let n := Byte.to_nat b in
      String (hexDigit (n / 16)) (String (hexDigit (n mod 16)) (Buffer_toHex rest))
  end.

(** The value of a hexadecimal digit, and the byte two digits spell. *)
Definition hexValue (c : ascii) : option nat :=
  let n := nat_of_ascii c in
  if (48 <=? n)%nat && (n <=? 57)%nat then Some (n - 48)%nat
  else if (97 <=? n)%nat && (n <=? 102)%nat then Some (n - 87)%nat
  else None.

Definition byteOfHex (hi lo : ascii) : option Byte.byte :=
  match hexValue hi, hexValue lo with
  | Some h, Some l => Byte.of_nat (16 * h + l)
  | _, _ => None
  end.

(** [Buffer.from(s, "hex")] on a string of whole lowercase byte pairs. *)
Fixpoint Buffer_fromHex (s : string) : option (list Byte.byte) :=
  match s with
  | EmptyString => Some []
  | String hi (String lo rest) =>
      match byteOfHex hi lo, Buffer_fromHex rest with
      | Some b, Some l => Some (b :: l)
      | _, _ => None
      end
  | String _ EmptyString => None
  end.

(** A [Hash] object of Node's [crypto]: [update] appends to the message,
    [digest] compresses what was fed. *)
Record Hash : Type := { fed : list Byte.byte }.

Definition createHash : Hash := {| fed := [] |}.

Definition update (h : Hash) (data : list Byte.byte) : Hash :=
  {| fed := fed h ++ data |}.

Definition digest {State} `{Platform State} (h : Hash) : list Byte.byte :=
  sha256 (fed h).

Section AuditChain.
Context {State Issue : Type} `{Platform State}.

(** The [payload] literal built for one entry. *)
Definition payloadOf (entry : AuditEntry State Issue) : Payload State :=
  {| p_stepIndex := stepIndex entry;
     p_ts := ts entry;
     p_phase := phase entry;
     p_critiqueCount :=
       match critiques entry with
       | Some v => if Array_isArray v then Array_length v else 0
       | None => 0
       end;
     p_inputState := undefinedToNull (inputState entry);
     p_draftState := undefinedToNull (draftState entry);
     p_finalState := undefinedToNull (finalState entry) |}.

(** The body of [for (const entry of auditHistory)], with [running] as
    the loop-carried variable. *)
Fixpoint chainLoop (running : list Byte.byte)
         (auditHistory : list (AuditEntry State Issue)) : list Byte.byte :=
  match auditHistory with
  | [] => running
  | entry :: rest =>
      let h := createHash in
      let payload := payloadOf entry in
      let data := Buffer_from (JSON_stringify payload) in
      let h := update h running in
      let h := update h data in
      chainLoop (digest h) rest
  end.

(** [SAAF.computeAuditRoot(auditHistory)] *)
Definition computeAuditRoot (auditHistory : list (AuditEntry State Issue)) : string :=
  let running := @nil Byte.byte (* Buffer.alloc(0) *) in
  Buffer_toHex (chainLoop running auditHistory).

(** ** The chain as the specification words it *)

(** The count of [critiques]: its length when present and a sequence,
    else 0. *)
Definition critiqueCount_spec (entry : AuditEntry State Issue) : Z :=
  match critiques entry with
  | Some (Arr l) => Z.of_nat (List.length l)
  | Some Falsy | Some Truthy | None => 0
  end.

(** A state field, with an explicit null when absent. *)
Definition nullWhenAbsent (x : option State) : OrNull State :=
  match x with Some s => Val s | None => Null end.

(** The canonical payload: [stepIndex], [timestamp], [phase], the count of
    critiques, and the three states. *)
Definition canonicalPayload_spec (entry : AuditEntry State Issue) : Payload State :=
  mkPayload (stepIndex entry) (ts entry) (phase entry)
            (critiqueCount_spec entry)
            (nullWhenAbsent (inputState entry))
            (nullWhenAbsent (draftState entry))
            (nullWhenAbsent (finalState entry)).

(** The accumulator after one more entry: the digest of the accumulator
    followed by the serialized payload. *)
Definition chainStep_spec (acc : list Byte.byte) (entry : AuditEntry State Issue)
  : list Byte.byte :=
  sha256 (acc ++ Buffer_from (JSON_stringify (canonicalPayload_spec entry))).

(** The sequential fold from the empty accumulator. *)
Definition computeRoot_spec (entries : list (AuditEntry State Issue)) : list Byte.byte :=
  fold_left chainStep_spec entries [].

(** The byte strings handed to SHA-256 along the chain of [entries] that
    starts from [running], in order. *)
Fixpoint chainInputs (running : list Byte.byte)
         (entries : list (AuditEntry State Issue)) : list (list Byte.byte) :=
  match entries with
  | [] => []
  | entry :: rest =>
      let input := running ++ Buffer_from (JSON_stringify (payloadOf entry)) in
      input :: chainInputs (sha256 input) rest
  end.
End AuditChain.

(* ================================================================== *)
(** * FlowEngine: [SAAF.execute] *)
(* ================================================================== *)

(** The host services the engine relies on: the wall clock and the timer
    pause [await new Promise(r => setTimeout(r, ms))], both acting on the
    world. *)
Class Host (W : Type) : Type := {
  Date_now : W -> Z * W;
  setTimeout_pause : Z -> W -> W
}.

(** A step descriptor. A capability that is missing or whose [typeof] is not
    ["function"] is [None]; [maxIterations] and [delayMs] are a number or
    left out ([undefined]), as the JSDoc of [execute] types them. *)
Record Step (State Issue W : Type) : Type := mkStep {
  draft : option (State -> W -> Result State * W);
  critique : option (State -> W -> Result (CritiqueValue Issue) * W);
  revise : option (State -> list Issue -> State -> W -> Result State * W);
  maxIterations : option Z;
  delayMs : option Z
}.
Arguments mkStep {State Issue W}.
Arguments draft {State Issue W} _.
Arguments critique {State Issue W} _.
Arguments revise {State Issue W} _.
Arguments maxIterations {State Issue W} _.
Arguments delayMs {State Issue W} _.

(** An element of the [steps] array: [undefined], [null], or an object. *)
Inductive StepSlot (State Issue W : Type) : Type :=
| SlotUndefined
| SlotNull
| SlotStep (s : Step State Issue W).
Arguments SlotUndefined {State Issue W}.
Arguments SlotNull {State Issue W}.
Arguments SlotStep {State Issue W} s.

(** The object literal [{}]: every property reads as [undefined]. *)
Definition emptyObject {State Issue W} : Step State Issue W :=
  mkStep None None None None None.

(** [steps[i] || {}] *)
Definition slotOrEmpty {State Issue W} (slot : StepSlot State Issue W)
  : Step State Issue W :=
  match slot with
  | SlotStep s => s
  | SlotUndefined | SlotNull => emptyObject
  end.

(** A destructuring default, [x = d]; on a number or [undefined] it agrees
    with [x ?? d]. *)
Definition defaultTo (d : Z) (x : option Z) : Z :=
  match x with Some v => v | None => d end.

(** [x ?? d] *)
Definition nullish (x : option Z) (d : Z) : Z :=
  match x with Some v => v | None => d end.

(** An invocation of one of the caller's capabilities by the step at index
    [i], with its arguments and its completion. The engine itself keeps no
    such record; it is the observer's view of the run. *)
Inductive Event (State Issue : Type) : Type :=
| EvDraft (i : Z) (arg : State) (res : Result State)
| EvCritique (i : Z) (arg : State) (res : Result (CritiqueValue Issue))
| EvRevise (i : Z) (arg : State) (issues : list Issue) (prev : State)
           (res : Result State).
Arguments EvDraft {State Issue} i arg res.
Arguments EvCritique {State Issue} i arg res.
Arguments EvRevise {State Issue} i arg issues prev res.

Definition eventStep {State Issue} (ev : Event State Issue) : Z :=
  match ev with
  | EvDraft i _ _ | EvCritique i _ _ | EvRevise i _ _ _ _ => i
  end.

Definition isCritique {State Issue} (ev : Event State Issue) : bool :=
  match ev with EvCritique _ _ _ => true | _ => false end.

Definition isRevise {State Issue} (ev : Event State Issue) : bool :=
  match ev with EvRevise _ _ _ _ _ => true | _ => false end.

(** The invocation is a critique that came back with no issues: a falsy
    value, a value that is not an array, or an empty array. *)
Definition reportsNoIssues {State Issue} (ev : Event State Issue) : bool :=
  match ev with
  | EvCritique _ _ (Returns v) =>
      negb (Array_isArray (orEmptyArray v)) || (Array_length (orEmptyArray v) =? 0)
  | _ => false
  end.

(** The number of critique, and of revise, invocations by step [i]. *)
Definition critiqueCalls {State Issue} (i : Z) (evs : list (Event State Issue)) : nat :=
  List.length (filter (fun ev => isCritique ev && (eventStep ev =? i)) evs).

Definition reviseCalls {State Issue} (i : Z) (evs : list (Event State Issue)) : nat :=
  List.length (filter (fun ev => isRevise ev && (eventStep ev =? i)) evs).

(** What one run owns: the world its capabilities act on, its
    [auditHistory] array, and the invocations observed so far. *)
Record Run (State Issue W : Type) : Type := mkRun {
  world : W;
  auditHistory : list (AuditEntry State Issue);
  calls : list (Event State Issue)
}.
Arguments mkRun {State Issue W}.
Arguments world {State Issue W} _.
Arguments auditHistory {State Issue W} _.
Arguments calls {State Issue W} _.

(** The variables of a step that are live across and after its
    critique/revise loop. *)
Record Locals (State Issue : Type) : Type := mkLocals {
  loc_iterations : Z;
  loc_current : State;
  loc_critiques : CritiqueValue Issue;
  loc_state : State
}.
Arguments mkLocals {State Issue}.
Arguments loc_iterations {State Issue} _.
Arguments loc_current {State Issue} _.
Arguments loc_critiques {State Issue} _.
Arguments loc_state {State Issue} _.

(** The decimal rendering of an index inside a template literal. *)
Definition decimal (i : Z) : string := NilZero.string_of_int (Z.to_int i).

Section FlowEngine.
Context {State Issue W : Type} `{Host W}.

(** ** The monad of the [run] closure

    A computation acts on the run and completes with a value or a thrown
    one; [None] is a loop of the model that was given too little fuel. *)
Definition M (A : Type) : Type := Run State Issue W -> option (Result A * Run State Issue W).

Definition ret {A} (a : A) : M A := fun r => Some (Returns a, r).

Definition throw {A} (e : Exn) : M A := fun r => Some (Throws e, r).

Definition outOfFuel {A} : M A := fun _ => None.

Definition bind {A B} (m : M A) (k : A -> M B) : M B :=
  fun r =>
    match m r with
    | Some (Returns a, r') => k a r'
    | Some (Throws e, r') => Some (Throws e, r')
    | None => None
    end.

(** [try { m } catch (e) { handler e }] *)
Definition tryCatch {A} (m : M A) (handler : Exn -> M A) : M A :=
  fun r =>
    match m r with
    | Some (Returns a, r') => Some (Returns a, r')
    | Some (Throws e, r') => handler e r'
    | None => None
    end.

Notation "x <- m ;; k" := (bind m (fun x => k))
  (at level 61, m at next level, right associativity).
Notation "m ;;; k" := (bind m (fun _ => k))
  (at level 61, right associativity).

(** [Date.now()] *)
Definition dateNow : M Z :=
  fun r =>
    let (t, w) := Date_now (world r) in
    Some (Returns t, mkRun w (auditHistory r) (calls r)).

(** [auditHistory.push(entry)] *)
Definition push (entry : AuditEntry State Issue) : M unit :=
  fun r => Some (Returns tt, mkRun (world r) (auditHistory r ++ [entry]) (calls r)).

(** [await new Promise(r => setTimeout(r, ms))] *)
Definition pause (ms : Z) : M unit :=
  fun r => Some (Returns tt, mkRun (setTimeout_pause ms (world r)) (auditHistory r) (calls r)).

(** [await draft(s)] *)
Definition callDraft (i : Z) (f : State -> W -> Result State * W) (s : State)
  : M State :=
  fun r =>
    let (res, w) := f s (world r) in
    Some (res, mkRun w (auditHistory r) (calls r ++ [EvDraft i s res])).

(** [critique(s)] *)
Definition callCritique (i : Z)
           (f : State -> W -> Result (CritiqueValue Issue) * W) (s : State)
  : M (CritiqueValue Issue) :=
  fun r =>
    let (res, w) := f s (world r) in
    Some (res, mkRun w (auditHistory r) (calls r ++ [EvCritique i s res])).

(** [await revise(s, issues, prev)] *)
Definition callRevise (i : Z)
           (f : State -> list Issue -> State -> W -> Result State * W)
           (s : State) (issues : list Issue) (prev : State) : M State :=
  fun r =>
    let (res, w) := f s issues prev (world r) in
    Some (res, mkRun w (auditHistory r) (calls r ++ [EvRevise i s issues prev res])).

(** ** The critique/revise loop

    [for (; iterations < Math.max(1, maxIterations); iterations += 1)],
    from the locals [loc]; a [break] and the failing guard both leave the
    loop with the locals as they then stand. *)
Fixpoint critiqueReviseLoop (fuel : nat) (i : Z)
         (critiqueF : State -> W -> Result (CritiqueValue Issue) * W)
         (reviseF : State -> list Issue -> State -> W -> Result State * W)
         (maxIter delay : Z) (stepStartState draftSt : State)
         (loc : Locals State Issue) : M (Locals State Issue) :=
  if loc_iterations loc <? Z.max 1 maxIter then
    match fuel with
    | O => outOfFuel
    | S fuel' =>
        r <- tryCatch (callCritique i critiqueF (loc_current loc))
               (fun e =>
                  t <- dateNow ;;
                  push {| stepIndex := i; ts := t; phase := "critique:error";
                          error := Some (errorText e);
                          inputState := Some stepStartState; draftState := Some (loc_current loc);
                          critiques := None; finalState := None;
                          iterations := None |} ;;;
                  throw e) ;;
        let crits := orEmptyArray r in
        if negb (Array_isArray crits) || (Array_length crits =? 0) then
          t <- dateNow ;;
          push {| stepIndex := i; ts := t; phase := 
                    (if loc_iterations loc =? 0 then "draft:accepted" else "revise:accepted");
                  error := None;
                  inputState := Some stepStartState; draftState := Some draftSt;
                  critiques := Some (Arr []); finalState := Some (loc_current loc);
                  iterations := Some (loc_iterations loc) |} ;;;
          ret (mkLocals (loc_iterations loc) (loc_current loc) crits (loc_current loc))
        else
          cur <- tryCatch
                   (callRevise i reviseF (loc_current loc) (Array_elems crits) stepStartState)
                   (fun e =>
                      t <- dateNow ;;
                      push {| stepIndex := i; ts := t; phase := "revise:error";
                              error := Some (errorText e);
                              inputState := Some stepStartState; draftState := Some draftSt;
                              critiques := Some crits; finalState := None;
                              iterations := None |} ;;;
                      throw e) ;;
          (if delay >? 0 then pause delay else ret tt) ;;;
          critiqueReviseLoop fuel' i critiqueF reviseF maxIter delay
            stepStartState draftSt
            (mkLocals (loc_iterations loc + 1) cur crits (loc_state loc))
    end
  else ret loc.

(** [steps[i].maxIterations]: reading a property of [undefined] or [null]
    throws. *)
Definition readMaxIterations (slot : StepSlot State Issue W) : M (option Z) :=
  match slot with
  | SlotStep s => ret (maxIterations s)
  | SlotUndefined =>
      throw (ErrorObj "TypeError"
               "Cannot read properties of undefined (reading 'maxIterations')")
  | SlotNull =>
      throw (ErrorObj "TypeError"
               "Cannot read properties of null (reading 'maxIterations')")
  end.

(** The message of the error raised for an invalid step. *)
Definition invalidMessage (i : Z) : string :=
  String.append "Step "
    (String.append (decimal i) " is invalid. Expected functions: draft, critique, revise.").

(** The check that follows the loop: at the cap with critiques left,
    record [revise:capped] and adopt the candidate. The result is the
    value of [state] when the body ends. *)
Definition capCheck (i : Z) (slot : StepSlot State Issue W)
           (stepStartState draftSt : State) (loc : Locals State Issue) : M State :=
  m <- readMaxIterations slot ;;
  if (loc_iterations loc >=? Z.max 1 (nullish m 3))
     && Array_isArray (loc_critiques loc)
     && (Array_length (loc_critiques loc) >? 0)
  then
    t <- dateNow ;;
    push {| stepIndex := i; ts := t; phase := "revise:capped";
            error := None;
            inputState := Some stepStartState; draftState := Some draftSt;
            critiques := Some (loc_critiques loc); finalState := Some (loc_current loc);
            iterations := Some (loc_iterations loc) |} ;;;
    ret (loc_current loc)
  else ret (loc_state loc).

(** The body of [for (let i = 0; i < steps.length; i += 1)] for the
    element [slot] at index [i], entered with [state]; it completes with
    the value of [state] at its end. *)
Definition stepBody (i : Z) (slot : StepSlot State Issue W) (state : State)
  : M State :=
  let obj := slotOrEmpty slot in
  let maxIter := defaultTo 3 (maxIterations obj) in
  let delay := defaultTo 0 (delayMs obj) in
  match draft obj, critique obj, revise obj with
  | Some draftF, Some critiqueF, Some reviseF =>
      let stepStartState := state in
      draftSt <- tryCatch (callDraft i draftF stepStartState)
                   (fun e =>
                      t <- dateNow ;;
                      push {| stepIndex := i; ts := t; phase := "draft:error";
                              error := Some (errorText e);
                              inputState := Some stepStartState; draftState := None;
                              critiques := None; finalState := None;
                              iterations := None |} ;;;
                      throw e) ;;
      loc <- critiqueReviseLoop (Z.to_nat (Z.max 1 maxIter)) i critiqueF reviseF
               maxIter delay stepStartState draftSt
               (mkLocals 0 draftSt (Arr []) state) ;;
      capCheck i slot stepStartState draftSt loc
  | _, _, _ =>
      let err := ErrorObj "TypeError" (invalidMessage i) in
      t <- dateNow ;;
      push {| stepIndex := i; ts := t; phase := "invalid";
              error := Some (errorText err);
              inputState := Some state; draftState := None;
              critiques := None; finalState := None;
              iterations := None |} ;;;
      throw err
  end.

(** The loop over [steps] from index [i], then [return state]. *)
Fixpoint runSteps (i : Z) (steps : list (StepSlot State Issue W)) (state : State)
  : M State :=
  match steps with
  | [] => ret state
  | slot :: rest =>
      state' <- stepBody i slot state ;;
      runSteps (i + 1) rest state'
  end.

(** [SAAF.execute(initialState, steps)], started in world [w]: how the
    promise settles, and the run with its [auditHistory]. *)
Definition execute (initialState : State) (steps : list (StepSlot State Issue W))
           (w : W) : option (Result State * Run State Issue W) :=
  runSteps 0 steps initialState (mkRun w [] []).
End FlowEngine.

(** The [auditRoot] getter of the returned promise. *)
Definition auditRoot {State Issue W} `{Platform State} (r : Run State Issue W) : string :=
  computeAuditRoot (auditHistory r).

(* ================================================================== *)
(** * The entries the engine writes *)
(* ================================================================== *)

Section Entries.
Context {State Issue : Type}.

Definition invalidEntry (i t : Z) (message : string) (state : State)
  : AuditEntry State Issue :=
  {| stepIndex := i; ts := t; phase := "invalid"; error := Some message;
     inputState := Some state; draftState := None; critiques := None;
     finalState := None; iterations := None |}.

Definition draftErrorEntry (i t : Z) (e : Exn) (stepStartState : State)
  : AuditEntry State Issue :=
  {| stepIndex := i; ts := t; phase := "draft:error";
     error := Some (errorText e);
     inputState := Some stepStartState; draftState := None; critiques := None;
     finalState := None; iterations := None |}.

Definition critiqueErrorEntry (i t : Z) (e : Exn) (stepStartState cur : State)
  : AuditEntry State Issue :=
  {| stepIndex := i; ts := t; phase := "critique:error";
     error := Some (errorText e);
     inputState := Some stepStartState; draftState := Some cur;
     critiques := None; finalState := None; iterations := None |}.

Definition reviseErrorEntry (i t : Z) (e : Exn) (stepStartState draftSt : State)
           (crits : CritiqueValue Issue) : AuditEntry State Issue :=
  {| stepIndex := i; ts := t; phase := "revise:error";
     error := Some (errorText e);
     inputState := Some stepStartState; draftState := Some draftSt;
     critiques := Some crits; finalState := None; iterations := None |}.

Definition acceptedEntry (i t : Z) (stepStartState draftSt cur : State) (iters : Z)
  : AuditEntry State Issue :=
  {| stepIndex := i; ts := t;
     phase := if iters =? 0 then "draft:accepted" else "revise:accepted";
     error := None;
     inputState := Some stepStartState; draftState := Some draftSt;
     critiques := Some (Arr []); finalState := Some cur;
     iterations := Some iters |}.

Definition cappedEntry (i t : Z) (stepStartState draftSt cur : State)
           (crits : CritiqueValue Issue) (iters : Z) : AuditEntry State Issue :=
  {| stepIndex := i; ts := t; phase := "revise:capped"; error := None;
     inputState := Some stepStartState; draftState := Some draftSt;
     critiques := Some crits; finalState := Some cur;
     iterations := Some iters |}.

(** [!Array.isArray(v) || v.length === 0], the test for "no issues". *)
Definition noIssues (v : CritiqueValue Issue) : bool :=
  negb (Array_isArray v) || (Array_length v =? 0).

(** The [stepIndex] values of a history are non-decreasing: each is at
    most every later one. *)
Fixpoint nonDecreasing (l : list Z) : Prop :=
  match l with
  | [] => True
  | x :: rest => Forall (fun y => x <= y) rest /\ nonDecreasing rest
  end.

(** The fields of an audit entry. *)
Inductive Field : Type :=
| FStepIndex | FTs | FPhase | FError | FInputState | FDraftState
| FCritiques | FFinalState | FIterations.

(** [a] and [b] agree on field [f]. *)
Definition agreeOn (f : Field) (a b : AuditEntry State Issue) : Prop :=
  match f with
  | FStepIndex => stepIndex a = stepIndex b
  | FTs => ts a = ts b
  | FPhase => phase a = phase b
  | FError => error a = error b
  | FInputState => inputState a = inputState b
  | FDraftState => draftState a = draftState b
  | FCritiques => critiques a = critiques b
  | FFinalState => finalState a = finalState b
  | FIterations => iterations a = iterations b
  end.

(** [a] and [b] are identical except for field [f], where they differ. *)
Definition differOnlyIn (f : Field) (a b : AuditEntry State Issue) : Prop :=
  ~ agreeOn f a b /\ forall g, g <> f -> agreeOn g a b.

(** Two entry sequences identical except for one field in one entry. *)
Definition oneFieldApart (es1 es2 : list (AuditEntry State Issue)) : Prop :=
  exists pre a b post f,
    es1 = pre ++ a :: post /\ es2 = pre ++ b :: post /\ differOnlyIn f a b.
End Entries.

(* ================================================================== *)
(** * The runs of a step, case by case *)
(* ================================================================== *)

Section StepRuns.
Context {State Issue W : Type} `{Host W}.

Section LoopRuns.
Variable i : Z.
Variable critiqueF : State -> W -> Result (CritiqueValue Issue) * W.
Variable reviseF : State -> list Issue -> State -> W -> Result State * W.
Variables maxIter delay : Z.
Variables stepStartState draftSt : State.

(** The world after the optional pause that follows a revise. *)
Definition afterPause (w : W) : W :=
  if delay >? 0 then setTimeout_pause delay w else w.

(** [LoopRun loc r out r']: entered with locals [loc] in run [r], the
    critique/revise loop completes with [out] and leaves run [r']. *)
Inductive LoopRun
  : Locals State Issue -> Run State Issue W ->
    Result (Locals State Issue) -> Run State Issue W -> Prop :=
| LoopGuardFails loc r :
    (loc_iterations loc <? Z.max 1 maxIter) = false ->
    LoopRun loc r (Returns loc) r
| LoopCritiqueThrows loc r e w1 t w2 :
    (loc_iterations loc <? Z.max 1 maxIter) = true ->
    critiqueF (loc_current loc) (world r) = (Throws e, w1) ->
    Date_now w1 = (t, w2) ->
    LoopRun loc r (Throws e)
      (mkRun w2
         (auditHistory r ++ [critiqueErrorEntry i t e stepStartState (loc_current loc)])
         (calls r ++ [EvCritique i (loc_current loc) (Throws e)]))
| LoopAccepts loc r v w1 t w2 :
    (loc_iterations loc <? Z.max 1 maxIter) = true ->
    critiqueF (loc_current loc) (world r) = (Returns v, w1) ->
    noIssues (orEmptyArray v) = true ->
    Date_now w1 = (t, w2) ->
    LoopRun loc r
      (Returns (mkLocals (loc_iterations loc) (loc_current loc)
                  (orEmptyArray v) (loc_current loc)))
      (mkRun w2
         (auditHistory r ++
            [acceptedEntry i t stepStartState draftSt (loc_current loc)
               (loc_iterations loc)])
         (calls r ++ [EvCritique i (loc_current loc) (Returns v)]))
| LoopReviseThrows loc r v w1 e w2 t w3 :
    (loc_iterations loc <? Z.max 1 maxIter) = true ->
    critiqueF (loc_current loc) (world r) = (Returns v, w1) ->
    noIssues (orEmptyArray v) = false ->
    reviseF (loc_current loc) (Array_elems (orEmptyArray v)) stepStartState w1
      = (Throws e, w2) ->
    Date_now w2 = (t, w3) ->
    LoopRun loc r (Throws e)
      (mkRun w3
         (auditHistory r ++
            [reviseErrorEntry i t e stepStartState draftSt (orEmptyArray v)])
         (calls r ++
            [EvCritique i (loc_current loc) (Returns v);
             EvRevise i (loc_current loc) (Array_elems (orEmptyArray v))
               stepStartState (Throws e)]))
| LoopIterates loc r v w1 cur w2 out r' :
    (loc_iterations loc <? Z.max 1 maxIter) = true ->
    critiqueF (loc_current loc) (world r) = (Returns v, w1) ->
    noIssues (orEmptyArray v) = false ->
    reviseF (loc_current loc) (Array_elems (orEmptyArray v)) stepStartState w1
      = (Returns cur, w2) ->
    LoopRun (mkLocals (loc_iterations loc + 1) cur (orEmptyArray v) (loc_state loc))
      (mkRun (afterPause w2) (auditHistory r)
         (calls r ++
            [EvCritique i (loc_current loc) (Returns v);
             EvRevise i (loc_current loc) (Array_elems (orEmptyArray v))
               stepStartState (Returns cur)]))
      out r' ->
    LoopRun loc r out r'.

(** What a completed loop run, entered with [loc], has appended to the
    history ([ents]) and to the observed invocations ([evs]). *)
Definition LoopSummary (loc : Locals State Issue)
           (out : Result (Locals State Issue))
           (ents : list (AuditEntry State Issue))
           (evs : list (Event State Issue)) : Prop :=
  let bound := Z.max 1 maxIter in
  Forall (fun e => stepIndex e = i) ents
  /\ Forall (fun ev => eventStep ev = i) evs
  /\ (critiqueCalls i evs <= Z.to_nat (bound - loc_iterations loc))%nat
  /\ (reviseCalls i evs <= Z.to_nat (bound - loc_iterations loc))%nat
  /\ match out with
     | Throws e =>
         (* a capability threw: one error entry *)
         Forall (fun ev => reportsNoIssues ev = false) evs
         /\ exists en, ents = [en]
              /\ (phase en = "critique:error" \/ phase en = "revise:error")
     | Returns loc' =>
         (* the [break] after a clean critique *)
         (loc_iterations loc' < bound
          /\ loc_state loc' = loc_current loc'
          /\ noIssues (loc_critiques loc') = true
          /\ S (reviseCalls i evs) = critiqueCalls i evs
          /\ Z.of_nat (reviseCalls i evs) = loc_iterations loc' - loc_iterations loc
          /\ exists t v evs0,
               ents = [acceptedEntry i t stepStartState draftSt
                         (loc_current loc') (loc_iterations loc')]
               /\ evs = evs0 ++ [EvCritique i (loc_current loc') (Returns v)]
               /\ noIssues (orEmptyArray v) = true
               /\ Forall (fun ev => reportsNoIssues ev = false) evs0)
         \/
         (* the guard failed: the budget is spent *)
         (bound <= loc_iterations loc'
          /\ ents = []
          /\ loc_state loc' = loc_state loc
          /\ reviseCalls i evs = critiqueCalls i evs
          /\ Z.of_nat (reviseCalls i evs) = loc_iterations loc' - loc_iterations loc
          /\ Forall (fun ev => reportsNoIssues ev = false) evs
          /\ ((evs = [] /\ loc' = loc)
              \/ exists evs0 cand issues cur,
                   evs = evs0 ++ [EvCritique i cand (Returns (Arr issues));
                                  EvRevise i cand issues stepStartState (Returns cur)]
                   /\ issues <> []
                   /\ loc_current loc' = cur
                   /\ loc_critiques loc' = Arr issues
                   /\ loc_iterations loc' = bound))
     end.
End LoopRuns.

(** The test of the check that follows the loop, for a step object [s]. *)
Definition atCapWithIssues (s : Step State Issue W) (loc : Locals State Issue) : bool :=
  (loc_iterations loc >=? Z.max 1 (nullish (maxIterations s) 3))
  && Array_isArray (loc_critiques loc)
  && (Array_length (loc_critiques loc) >? 0).

(** [StepRun i slot state r out r']: the body of the loop over steps, for
    the element [slot] at index [i] entered with [state] in run [r],
    completes with [out] and leaves run [r']. *)
Inductive StepRun (i : Z) (slot : StepSlot State Issue W) (state : State)
  : Run State Issue W -> Result State -> Run State Issue W -> Prop :=
| StepInvalid r t w :
    draft (slotOrEmpty slot) = None \/ critique (slotOrEmpty slot) = None
    \/ revise (slotOrEmpty slot) = None ->
    Date_now (world r) = (t, w) ->
    StepRun i slot state r
      (Throws (ErrorObj "TypeError" (invalidMessage i)))
      (mkRun w (auditHistory r ++ [invalidEntry i t (invalidMessage i) state])
         (calls r))
| StepDraftThrows r s d c rv e w1 t w2 :
    slot = SlotStep s ->
    draft s = Some d -> critique s = Some c -> revise s = Some rv ->
    d state (world r) = (Throws e, w1) ->
    Date_now w1 = (t, w2) ->
    StepRun i slot state r (Throws e)
      (mkRun w2 (auditHistory r ++ [draftErrorEntry i t e state])
         (calls r ++ [EvDraft i state (Throws e)]))
| StepLoopThrows r s d c rv ds w1 e r' :
    slot = SlotStep s ->
    draft s = Some d -> critique s = Some c -> revise s = Some rv ->
    d state (world r) = (Returns ds, w1) ->
    LoopRun i c rv (defaultTo 3 (maxIterations s)) (defaultTo 0 (delayMs s))
      state ds (mkLocals 0 ds (Arr []) state)
      (mkRun w1 (auditHistory r) (calls r ++ [EvDraft i state (Returns ds)]))
      (Throws e) r' ->
    StepRun i slot state r (Throws e) r'
| StepSettles r s d c rv ds w1 loc r' :
    slot = SlotStep s ->
    draft s = Some d -> critique s = Some c -> revise s = Some rv ->
    d state (world r) = (Returns ds, w1) ->
    LoopRun i c rv (defaultTo 3 (maxIterations s)) (defaultTo 0 (delayMs s))
      state ds (mkLocals 0 ds (Arr []) state)
      (mkRun w1 (auditHistory r) (calls r ++ [EvDraft i state (Returns ds)]))
      (Returns loc) r' ->
    atCapWithIssues s loc = false ->
    StepRun i slot state r (Returns (loc_state loc)) r'
| StepCapped r s d c rv ds w1 loc r' t w2 :
    slot = SlotStep s ->
    draft s = Some d -> critique s = Some c -> revise s = Some rv ->
    d state (world r) = (Returns ds, w1) ->
    LoopRun i c rv (defaultTo 3 (maxIterations s)) (defaultTo 0 (delayMs s))
      state ds (mkLocals 0 ds (Arr []) state)
      (mkRun w1 (auditHistory r) (calls r ++ [EvDraft i state (Returns ds)]))
      (Returns loc) r' ->
    atCapWithIssues s loc = true ->
    Date_now (world r') = (t, w2) ->
    StepRun i slot state r (Returns (loc_current loc))
      (mkRun w2
         (auditHistory r' ++
            [cappedEntry i t state ds (loc_current loc) (loc_critiques loc)
               (loc_iterations loc)])
         (calls r')).

(** The iteration budget of the element [slot]: [Math.max(1, maxIterations)]
    with the default of 3. *)
Definition budget (slot : StepSlot State Issue W) : Z :=
  Z.max 1 (defaultTo 3 (maxIterations (slotOrEmpty slot))).

(** What a completed step body, for the element [slot] at index [i]
    entered with [state], has appended to the history ([ents]) and to the
    observed invocations ([evs]). *)
Definition StepSummary (i : Z) (slot : StepSlot State Issue W) (state : State)
           (out : Result State)
           (ents : list (AuditEntry State Issue))
           (evs : list (Event State Issue)) : Prop :=
  Forall (fun e => stepIndex e = i) ents
  /\ Forall (fun ev => eventStep ev = i) evs
  /\ Z.of_nat (critiqueCalls i evs) <= budget slot
  /\ Z.of_nat (reviseCalls i evs) <= budget slot
  /\ match out with
     | Throws e =>
         Forall (fun ev => reportsNoIssues ev = false) evs
         /\ exists en, ents = [en]
              /\ (phase en = "invalid" \/ phase en = "draft:error"
                  \/ phase en = "critique:error" \/ phase en = "revise:error")
     | Returns st =>
         (* accepted after a clean critique *)
         (exists t ds iters v evs0,
             ents = [acceptedEntry i t state ds st iters]
             /\ iters = Z.of_nat (reviseCalls i evs)
             /\ iters < budget slot
             /\ critiqueCalls i evs = S (reviseCalls i evs)
             /\ evs = evs0 ++ [EvCritique i st (Returns v)]
             /\ reportsNoIssues (EvCritique i st (Returns v) : Event State Issue) = true
             /\ Forall (fun ev => reportsNoIssues ev = false) evs0)
         \/
         (* capped with issues left *)
         (exists t ds issues cand evs0,
             ents = [cappedEntry i t state ds st (Arr issues) (budget slot)]
             /\ issues <> []
             /\ Z.of_nat (reviseCalls i evs) = budget slot
             /\ critiqueCalls i evs = reviseCalls i evs
             /\ evs = evs0 ++ [EvCritique i cand (Returns (Arr issues));
                               EvRevise i cand issues state (Returns st)]
             /\ Forall (fun ev => reportsNoIssues ev = false) evs)
     end.

(** Among the invocations [evs] of a run, the entry [e] is backed by a
    critique of some candidate [cand] that reported [issues], directly
    followed by the revise of [cand] that returned [cur], after which the
    step of [e] invokes nothing more; [e] carries [cur] as [finalState]
    and [issues] as [critiques]. *)
Definition lastReviseUnchecked (evs : list (Event State Issue))
           (e : AuditEntry State Issue) : Prop :=
  exists before after cand issues prev cur,
    evs = before
          ++ [EvCritique (stepIndex e) cand (Returns (Arr issues));
              EvRevise (stepIndex e) cand issues prev (Returns cur)]
          ++ after
    /\ issues <> []
    /\ finalState e = Some cur
    /\ critiques e = Some (Arr issues)
    /\ Forall (fun ev => eventStep ev <> stepIndex e) after.
End StepRuns.

(* ================================================================== *)
(** * The scenarios of the test suite and of the README *)
(* ================================================================== *)

Module Scenarios.
(** States are plain objects with numeric properties, in key order. *)
Definition Obj : Type := list (string * Z).

(** [o[k]] *)
Fixpoint getField (k : string) (o : Obj) : option Z :=
  match o with
  | [] => None
  | (k', v) :: rest => if String.eqb k k' then Some v else getField k rest
  end.

(** [{ ...o, [k]: v }] *)
Fixpoint setField (k : string) (v : Z) (o : Obj) : Obj :=
  match o with
  | [] => [(k, v)]
  | (k', v') :: rest =>
      if String.eqb k k' then (k', v) :: rest else (k', v') :: setField k v rest
  end.

(** The world is the clock, in milliseconds; reading it takes one. *)
#[export] Instance clock : Host Z :=
  {| Date_now := fun w => (w, w + 1);
     setTimeout_pause := fun ms w => w + ms |}.

(** A stand-in platform for running the chain on small inputs: the
    "digest" keeps the message, the serializer writes the step index, the
    timestamp, the phase and the critique count. *)
#[export] Instance toyPlatform : Platform Obj :=
  {| sha256 := fun message => message;
     JSON_stringify := fun p =>
       String.concat ","
         [decimal (p_stepIndex p); decimal (p_ts p); p_phase p;
          decimal (p_critiqueCount p)] |}.

(** test "Recursive loop caps at maxIterations and proceeds" *)
Definition cappingStep : Step Obj string Z :=
  {| draft := Some (fun s w => (Returns (setField "v" 0 s), w));
     critique := Some (fun s w =>
       (Returns (match getField "v" s with
                 | Some 3 => Arr []
                 | _ => Arr ["not three"]
                 end), w));
     revise := Some (fun s _ _ w =>
       (Returns (setField "v" (defaultTo 0 (getField "v" s) + 1) s), w));
     maxIterations := Some 2;
     delayMs := None |}.

(** test "Pass-through when no critiques" *)
Definition passThroughStep : Step Obj string Z :=
  {| draft := Some (fun s w => (Returns (setField "ok" 1 s), w));
     critique := Some (fun _ w => (Returns (Arr []), w));
     revise := Some (fun s _ _ w => (Returns (setField "touched" 1 s), w));
     maxIterations := None;
     delayMs := None |}.

(** test "Invalid step surfaces error and audits": a sound step, then one
    whose [draft] is [null]. *)
Definition soundStep : Step Obj string Z :=
  {| draft := Some (fun _ w => (Returns [], w));
     critique := Some (fun _ w => (Returns (Arr []), w));
     revise := Some (fun s _ _ w => (Returns s, w));
     maxIterations := None;
     delayMs := None |}.

Definition malformedStep : Step Obj string Z :=
  {| draft := None;
     critique := Some (fun _ w => (Returns (Arr []), w));
     revise := Some (fun s _ _ w => (Returns s, w));
     maxIterations := None;
     delayMs := None |}.

(** The README step: draft sets [draft = (value || 0) + 1]; critique
    wants it odd; revise adds one and notes how many issues it fixed. *)
Definition readmeStep : Step Obj string Z :=
  {| draft := Some (fun s w =>
       (Returns (setField "draft" (defaultTo 0 (getField "value" s) + 1) s), w));
     critique := Some (fun s w =>
       (Returns (if Z.even (defaultTo 0 (getField "draft" s))
                 then Arr ["must be odd"] else Arr []), w));
     revise := Some (fun s issues _ w =>
       (Returns (setField "fixed" (Z.of_nat (List.length issues))
                   (setField "draft" (defaultTo 0 (getField "draft" s) + 1) s)), w));
     maxIterations := None;
     delayMs := None |}.

(** A step with a budget of one whose critique never clears. *)
Definition stubbornStep : Step Obj string Z :=
  {| draft := Some (fun s w => (Returns s, w));
     critique := Some (fun _ w => (Returns (Arr ["never"]), w));
     revise := Some (fun s _ _ w => (Returns (setField "n" 1 s), w));
     maxIterations := Some 0;
     delayMs := Some 5 |}.

(** test "SAAF resolves final state and exposes audit", with a budget of
    two: the second, and last allowed, critique is the clean one. *)
Definition finalPassStep : Step Obj string Z :=
  {| draft := Some (fun s w =>
       (Returns (setField "v" (defaultTo 0 (getField "v" s) + 1) s), w));
     critique := Some (fun s w =>
       (Returns (if defaultTo 0 (getField "v" s) <? 2
                 then Arr ["too small"] else Arr []), w));
     revise := Some (fun s _ _ w =>
       (Returns (setField "v" (defaultTo 0 (getField "v" s) + 1) s), w));
     maxIterations := Some 2;
     delayMs := None |}.

(** A step with [maxIterations = 2] whose critique never clears. *)
Definition neverClearsStep : Step Obj string Z :=
  {| draft := Some (fun s w => (Returns s, w));
     critique := Some (fun _ w => (Returns (Arr ["never"]), w));
     revise := Some (fun s _ _ w =>
       (Returns (setField "n" (defaultTo 0 (getField "n" s) + 1) s), w));
     maxIterations := Some 2;
     delayMs := None |}.

(** A step with [maxIterations = 0] whose critique returns nothing
    ([undefined]). *)
Definition silentStep : Step Obj string Z :=
  {| draft := Some (fun s w => (Returns s, w));
     critique := Some (fun _ w => (Returns Falsy, w));
     revise := Some (fun s _ _ w => (Returns (setField "n" 1 s), w));
     maxIterations := Some 0;
     delayMs := None |}.

(** The run of [cappingStep] alone, from the empty object at clock 100:
    the entry it leaves and the invocations it makes. *)
Definition cappingEntry : AuditEntry Obj string :=
  {| stepIndex := 0; ts := 100; phase := "revise:capped"; error := None;
     inputState := Some []; draftState := Some [("v", 0)];
     critiques := Some (Arr ["not three"]);
     finalState := Some [("v", 2)];
     iterations := Some 2 |}.

Definition cappingRun : Run Obj string Z :=
  {| world := 101;
     auditHistory := [cappingEntry];
     calls :=
       [EvDraft 0 [] (Returns [("v", 0)]);
        EvCritique 0 [("v", 0)] (Returns (Arr ["not three"]));
        EvRevise 0 [("v", 0)] ["not three"] [] (Returns [("v", 1)]);
        EvCritique 0 [("v", 1)] (Returns (Arr ["not three"]));
        EvRevise 0 [("v", 1)] ["not three"] [] (Returns [("v", 2)])] |}.

(** Two entries that differ in [iterations] alone, and two that differ in
    [phase] alone. *)
Definition entryA : AuditEntry Obj string :=
  acceptedEntry 0 10 [] [("v", 1)] [("v", 1)] 0.

Definition entryB : AuditEntry Obj string :=
  {| stepIndex := 0; ts := 10; phase := "draft:accepted"; error := None;
     inputState := Some []; draftState := Some [("v", 1)];
     critiques := Some (Arr []); finalState := Some [("v", 1)];
     iterations := Some 1 |}.

Definition entryC : AuditEntry Obj string :=
  {| stepIndex := 0; ts := 10; phase := "revise:accepted"; error := None;
     inputState := Some []; draftState := Some [("v", 1)];
     critiques := Some (Arr []); finalState := Some [("v", 1)];
     iterations := Some 0 |}.
End Scenarios.

(* ================================================================== *)
(** * Shapes of histories and of invocation sequences *)
(* ================================================================== *)

Section Shapes.
Context {State Issue : Type}.

(** The indices [i], [i + 1], ..., [i + n - 1]. *)
Definition indicesFrom (i : Z) (n : nat) : list Z :=
  map (fun k => i + Z.of_nat k) (seq 0 n).

(** The phases that end a step normally, and those that end a run. *)
Definition settledPhase (p : string) : Prop :=
  p = "draft:accepted" \/ p = "revise:accepted" \/ p = "revise:capped".

Definition failurePhase (p : string) : Prop :=
  p = "invalid" \/ p = "draft:error" \/ p = "critique:error" \/ p = "revise:error".

(** [threads s ents s']: the first entry has [s] as [inputState], each
    next entry has as [inputState] the [finalState] of the one before, and
    [s'] is the [finalState] of the last ([s] itself when there is none). *)
Fixpoint threads (s : State) (ents : list (AuditEntry State Issue)) (s' : State)
  : Prop :=
  match ents with
  | [] => s' = s
  | e :: rest =>
      inputState e = Some s
      /\ exists mid, finalState e = Some mid /\ threads mid rest s'
  end.

(** After the invocation [prev] (none yet when [None]), the step at index
    [i] may start on [state]: [state] is the initial state, or the
    candidate of an earlier step's clean critique, or the result of an
    earlier step's last revise. *)
Definition handsOver (initialState : State) (prev : option (Event State Issue))
           (i : Z) (state : State) : Prop :=
  match prev with
  | None => state = initialState
  | Some (EvCritique j cand (Returns v)) =>
      j < i /\ state = cand /\ noIssues (orEmptyArray v) = true
  | Some (EvRevise j _ _ _ (Returns cur)) => j < i /\ state = cur
  | Some _ => False
  end.

(** The invocation [ev] is called for by the one before it: a draft starts
    on the state handed over; a critique looks at what the draft or the
    revise of its step just returned; a revise gets the candidate and the
    non-empty issues of the critique just made. *)
Definition justified (initialState : State) (prev : option (Event State Issue))
           (ev : Event State Issue) : Prop :=
  match ev with
  | EvDraft i arg _ => handsOver initialState prev i arg
  | EvCritique i arg _ =>
      match prev with
      | Some (EvDraft j _ (Returns ds)) => j = i /\ arg = ds
      | Some (EvRevise j _ _ _ (Returns cur)) => j = i /\ arg = cur
      | _ => False
      end
  | EvRevise i arg issues _ _ =>
      match prev with
      | Some (EvCritique j cand (Returns (Arr l))) =>
          j = i /\ arg = cand /\ issues = l /\ l <> []
      | _ => False
      end
  end.

(** Every invocation of [evs], in order, is justified by the one before
    it, the first by [prev]. *)
Fixpoint protocol (initialState : State) (prev : option (Event State Issue))
         (evs : list (Event State Issue)) : Prop :=
  match evs with
  | [] => True
  | ev :: rest => justified initialState prev ev /\ protocol initialState (Some ev) rest
  end.

(** The invocation [ev] was given [s] as the state its step started from:
    as the argument of a draft, as the third argument of a revise. *)
Definition startsFrom (s : State) (ev : Event State Issue) : Prop :=
  match ev with
  | EvDraft _ arg _ => arg = s
  | EvRevise _ _ _ prev _ => prev = s
  | EvCritique _ _ _ => True
  end.

(** The last invocation of [evs], or [prev] when there is none. *)
Definition lastEvent (prev : option (Event State Issue))
           (evs : list (Event State Issue)) : option (Event State Issue) :=
  fold_left (fun _ ev => Some ev) evs prev.
End Shapes.

(** The optional controls of a step, resolved once: the budget
    [Math.max(1, maxIterations)] with its default of 3, and the delay with
    its default of 0, a delay that is not positive being no delay. *)
Definition resolveControls {State Issue W} (s : Step State Issue W)
  : Step State Issue W :=
  {| draft := draft s;
     critique := critique s;
     revise := revise s;
     maxIterations := Some (Z.max 1 (defaultTo 3 (maxIterations s)));
     delayMs := Some (Z.max 0 (defaultTo 0 (delayMs s))) |}.

Definition resolveSlot {State Issue W} (slot : StepSlot State Issue W)
  : StepSlot State Issue W :=
  match slot with
  | SlotStep s => SlotStep (resolveControls s)
  | SlotUndefined => SlotUndefined
  | SlotNull => SlotNull
  end.

(** A character of [[0-9a-f]]. *)
Definition isLowerHex (c : ascii) : bool :=
  let n := nat_of_ascii c in
  ((48 <=? n)%nat && (n <=? 57)%nat) || ((97 <=? n)%nat && (n <=? 102)%nat).

(** Every character of [s] passes [p]. *)
Fixpoint allChars (p : ascii -> bool) (s : string) : bool :=
  match s with
  | EmptyString => true
  | String c rest => p c && allChars p rest
  end.

(** The serialized payloads of a history, in order. *)
Definition serializedPayloads {State Issue} `{Platform State}
           (entries : list (AuditEntry State Issue)) : list string :=
  map (fun entry => JSON_stringify (payloadOf entry)) entries.

(* ================================================================== *)
(** * The README flow, the CLI demo and the demo server *)
(* ================================================================== *)

Module Demo.
(** A number as the demo handles it: an integer or [NaN]. *)
Inductive JsNum : Type :=
| Int (z : Z)
| NaN.

(** A state of the demo: a plain object with numeric properties, in key
    order. *)
Definition DemoObj : Type := list (string * JsNum).

(** [o[k]]; [None] is [undefined]. *)
Fixpoint getProp (k : string) (o : DemoObj) : option JsNum :=
  match o with
  | [] => None
  | (k', v) :: rest => if String.eqb k k' then Some v else getProp k rest
  end.

(** [{ ...o, [k]: v }] *)
Fixpoint setProp (k : string) (v : JsNum) (o : DemoObj) : DemoObj :=
  match o with
  | [] => [(k, v)]
  | (k', v') :: rest =>
      if String.eqb k k' then (k', v) :: rest else (k', v') :: setProp k v rest
  end.

(** [x || 0] on a number or [undefined] *)
Definition orZero (x : option JsNum) : JsNum :=
  match x with
  | Some (Int z) => if z =? 0 then Int 0 else Int z
  | Some NaN | None => Int 0
  end.

(** [x + 1] on a number or [undefined] *)
Definition plusOne (x : option JsNum) : JsNum :=
  match x with
  | Some (Int z) => Int (z + 1)
  | Some NaN | None => NaN
  end.

(** [x % 2 === 0] on a number or [undefined] *)
Definition remTwoIsZero (x : option JsNum) : bool :=
  match x with
  | Some (Int z) => Z.rem z 2 =? 0
  | Some NaN | None => false
  end.

(** [async (s) => ({ ...s, draft: (s.value || 0) + 1 })] *)
Definition demoDraft {W : Type} (s : DemoObj) (w : W) : Result DemoObj * W :=
  (Returns (setProp "draft" (plusOne (Some (orZero (getProp "value" s)))) s), w).

(** [(s) => (s.draft % 2 === 0 ? ["must be odd"] : [])] *)
Definition demoCritique {W : Type} (s : DemoObj) (w : W)
  : Result (CritiqueValue string) * W :=
  (Returns (if remTwoIsZero (getProp "draft" s) then Arr ["must be odd"] else Arr []), w).

(** [async (s, critiques) =>
     ({ ...s, draft: s.draft + 1, fixed: critiques.length })] *)
Definition demoRevise {W : Type} (s : DemoObj) (critiques : list string)
           (prev : DemoObj) (w : W) : Result DemoObj * W :=
  (Returns (setProp "fixed" (Int (Z.of_nat (List.length critiques)))
              (setProp "draft" (plusOne (getProp "draft" s)) s)), w).

(** The one step of the README, of [demo.js] and of [server.js]. *)
Definition demoStep {W : Type} : Step DemoObj string W :=
  {| draft := Some demoDraft;
     critique := Some demoCritique;
     revise := Some demoRevise;
     maxIterations := None;
     delayMs := None |}.

(** The object [{ result, auditEntries, auditRoot }] that the demo prints
    and the server sends. *)
Record Report : Type := mkReport {
  result : DemoObj;
  auditEntries : Z;
  reportRoot : string
}.

(** An incoming request, as far as the handler reads it; a missing [url]
    is [None]. *)
Record Request : Type := mkRequest {
  method : string;
  url : option string
}.

(** What the handler writes: the status, the headers and the body. *)
Record Response : Type := mkResponse {
  statusCode : Z;
  contentType : string;
  contentLength : option Z;
  body : string
}.

(** [JSON.stringify] on the two objects the server sends. *)
Class ServerJson : Type := {
  JSON_stringify_report : Report -> string;
  JSON_stringify_error : string -> string
}.

(** The line feed that ends the 404 body. *)
Definition newline : string := String (ascii_of_nat 10) EmptyString.

(** [Buffer.byteLength(s)] *)
Definition Buffer_byteLength (s : string) : Z := Z.of_nat (String.length s).

(** [req.method === "GET" && req.url && req.url.startsWith("/run")] *)
Definition isRunRequest (req : Request) : bool :=
  String.eqb (method req) "GET"
  && match url req with
     | Some u => negb (String.eqb u "") && String.prefix "/run" u
     | None => false
     end.

(** The request listener of [server.js], started in world [w]; [None] is
    a flow that ran out of fuel. *)
Definition requestListener {W : Type} `{Host W} `{Platform DemoObj} `{ServerJson}
           (req : Request) (w : W) : option (Response * W) :=
  if isRunRequest req then
    match execute [("value", Int 0)] [SlotStep demoStep] w with
    | Some (Returns res, r) =>
        let body :=
          JSON_stringify_report
            {| result := res;
               auditEntries := Z.of_nat (List.length (auditHistory r));
               reportRoot := auditRoot r |} in
        Some ({| statusCode := 200; contentType := "application/json";
                 contentLength := Some (Buffer_byteLength body);
                 body := body |}, world r)
    | Some (Throws err, r) =>
        let body := JSON_stringify_error (errorText err) in
        Some ({| statusCode := 500; contentType := "application/json";
                 contentLength := Some (Buffer_byteLength body);
                 body := body |}, world r)
    | None => None
    end
  else
    Some ({| statusCode := 404; contentType := "text/plain";
             contentLength := None;
             body := String.append "Not Found" newline |}, w).
End Demo.

(* ================================================================== *)
(** * Fixtures for the chain: a 32-byte stand-in digest *)
(* ================================================================== *)

Module Fixtures.
(** The [n] low bytes of [x], least significant first. *)
Fixpoint bytesOfN (n : nat) (x : N) : list Byte.byte :=
  match n with
  | O => []
  | S k =>
      match Byte.of_N (x mod 256) with
      | Some b => b :: bytesOfN k (x / 256)
      | None => Byte.x00 :: bytesOfN k (x / 256)
      end
  end.

(** A polynomial checksum of the message, as 32 bytes. It stands in for
    SHA-256 where a run of the chain needs digests of the right length. *)
Definition checksum32 (message : list Byte.byte) : list Byte.byte :=
  bytesOfN 32
    (fold_left (fun acc b => (acc * 257 + Byte.to_N b + 1) mod (2 ^ 256))%N message 0%N).

Definition checksumPlatform : Platform Scenarios.Obj :=
  {| sha256 := checksum32;
     JSON_stringify := fun p =>
       String.concat ","
         [decimal (p_stepIndex p); decimal (p_ts p); p_phase p;
          decimal (p_critiqueCount p)] |}.

(** A step that revises once, then throws from its second revise. *)
Definition failingReviseStep : Step Scenarios.Obj string Z :=
  {| draft := Some (fun s w => (Returns (Scenarios.setField "v" 0 s), w));
     critique := Some (fun _ w => (Returns (Arr ["again"]), w));
     revise := Some (fun s _ _ w =>
       match Scenarios.getField "v" s with
       | Some 0 => (Returns (Scenarios.setField "v" 1 s), w)
       | _ => (Throws (ErrorObj "Error" "cannot revise"), w)
       end);
     maxIterations := None;
     delayMs := None |}.

(** A step whose critique throws a string once the candidate is revised. *)
Definition failingCritiqueStep : Step Scenarios.Obj string Z :=
  {| draft := Some (fun s w => (Returns (Scenarios.setField "v" 0 s), w));
     critique := Some (fun s w =>
       match Scenarios.getField "v" s with
       | Some 0 => (Returns (Arr ["again"]), w)
       | _ => (Throws (NonError "boom"), w)
       end);
     revise := Some (fun s _ _ w => (Returns (Scenarios.setField "v" 1 s), w));
     maxIterations := None;
     delayMs := None |}.

(** The run of [failingReviseStep] from the empty object at clock 100. *)
Definition failedReviseRun : Run Scenarios.Obj string Z :=
  {| world := 101;
     auditHistory :=
       [{| stepIndex := 0; ts := 100; phase := "revise:error";
           error := Some "cannot revise";
           inputState := Some []; draftState := Some [("v", 0)];
           critiques := Some (Arr ["again"]);
           finalState := None; iterations := None |}];
     calls :=
       [EvDraft 0 [] (Returns [("v", 0)]);
        EvCritique 0 [("v", 0)] (Returns (Arr ["again"]));
        EvRevise 0 [("v", 0)] ["again"] [] (Returns [("v", 1)]);
        EvCritique 0 [("v", 1)] (Returns (Arr ["again"]));
        EvRevise 0 [("v", 1)] ["again"] []
          (Throws (ErrorObj "Error" "cannot revise"))] |}.

(** The run of [failingCritiqueStep] from the empty object at clock 100:
    the entry's [draftState] is the revised candidate. *)
Definition failedCritiqueRun : Run Scenarios.Obj string Z :=
  {| world := 101;
     auditHistory :=
       [{| stepIndex := 0; ts := 100; phase := "critique:error";
           error := Some "boom";
           inputState := Some []; draftState := Some [("v", 1)];
           critiques := None; finalState := None; iterations := None |}];
     calls :=
       [EvDraft 0 [] (Returns [("v", 0)]);
        EvCritique 0 [("v", 0)] (Returns (Arr ["again"]));
        EvRevise 0 [("v", 0)] ["again"] [] (Returns [("v", 1)]);
        EvCritique 0 [("v", 1)] (Throws (NonError "boom"))] |}.

(** The run of [soundStep] then [malformedStep] from the empty object at
    clock 100. *)
Definition malformedRun : Run Scenarios.Obj string Z :=
  {| world := 102;
     auditHistory :=
       [acceptedEntry 0 100 [] [] [] 0;
        invalidEntry 1 101
          "Step 1 is invalid. Expected functions: draft, critique, revise." []];
     calls := [EvDraft 0 [] (Returns []); EvCritique 0 [] (Returns (Arr []))] |}.

(** The run of [passThroughStep] then [cappingStep] from the empty object
    at clock 100. *)
Definition twoStepRun : Run Scenarios.Obj string Z :=
  {| world := 102;
     auditHistory :=
       [acceptedEntry 0 100 [] [("ok", 1)] [("ok", 1)] 0;
        cappedEntry 1 101 [("ok", 1)] [("ok", 1); ("v", 0)] [("ok", 1); ("v", 2)]
          (Arr ["not three"]) 2];
     calls :=
       [EvDraft 0 [] (Returns [("ok", 1)]);
        EvCritique 0 [("ok", 1)] (Returns (Arr []));
        EvDraft 1 [("ok", 1)] (Returns [("ok", 1); ("v", 0)]);
        EvCritique 1 [("ok", 1); ("v", 0)] (Returns (Arr ["not three"]));
        EvRevise 1 [("ok", 1); ("v", 0)] ["not three"] [("ok", 1)]
          (Returns [("ok", 1); ("v", 1)]);
        EvCritique 1 [("ok", 1); ("v", 1)] (Returns (Arr ["not three"]));
        EvRevise 1 [("ok", 1); ("v", 1)] ["not three"] [("ok", 1)]
          (Returns [("ok", 1); ("v", 2)])] |}.
End Fixtures.

(* ================================================================== *)
(** * The function and the case analysis agree *)
(* ================================================================== *)

(** Unfold the monad one layer. *)
Ltac unfold_monad :=
  unfold bind, tryCatch, ret, throw, outOfFuel, dateNow, push, pause,
    callDraft, callCritique, callRevise in *.

Section Adequacy.
Context {State Issue W : Type} `{Host W}.

Lemma loop_sound i critiqueF reviseF maxIter delay stepStartState draftSt :
  forall fuel loc (r : Run State Issue W) out r',
    critiqueReviseLoop fuel i critiqueF reviseF maxIter delay stepStartState draftSt
      loc r = Some (out, r') ->
    LoopRun i critiqueF reviseF maxIter delay stepStartState draftSt loc r out r'.
Proof.
  induction fuel as [|fuel IH]; intros loc r out r' E; simpl in E;
    destruct (loc_iterations loc <? Z.max 1 maxIter) eqn:G.
  - discriminate.
  - inversion E; subst. now apply LoopGuardFails.
  - unfold_monad.
    destruct (critiqueF (loc_current loc) (world r)) as [[v|e] w1] eqn:C; simpl in E.
    + fold (noIssues (orEmptyArray v)) in E.
      destruct (noIssues (orEmptyArray v)) eqn:N.
      * simpl in E. destruct (Date_now w1) as [t w2] eqn:D. simpl in E.
        inversion E; subst. now apply LoopAccepts with (w1 := w1).
      * simpl in E.
        destruct (reviseF (loc_current loc) (Array_elems (orEmptyArray v))
                    stepStartState w1) as [[cur|e] w2] eqn:R; simpl in E.
        -- eapply LoopIterates; eauto. apply IH.
           rewrite <- app_assoc in E. simpl in E.
           unfold afterPause. destruct (delay >? 0); exact E.
        -- simpl in E. destruct (Date_now w2) as [t w3] eqn:D. simpl in E.
           inversion E; subst. rewrite <- app_assoc. simpl.
           eapply LoopReviseThrows; eauto.
    + destruct (Date_now w1) as [t w2] eqn:D. simpl in E. inversion E; subst.
      now apply LoopCritiqueThrows with (w1 := w1).
  - inversion E; subst. now apply LoopGuardFails.
Qed.

Lemma loop_total i critiqueF reviseF maxIter delay stepStartState draftSt :
  forall fuel loc (r : Run State Issue W),
    (Z.to_nat (Z.max 1 maxIter - loc_iterations loc) <= fuel)%nat ->
    exists out r',
      critiqueReviseLoop fuel i critiqueF reviseF maxIter delay stepStartState
        draftSt loc r = Some (out, r').
Proof.
  induction fuel as [|fuel IH]; intros loc r F; simpl;
    destruct (loc_iterations loc <? Z.max 1 maxIter) eqn:G;
    try (eexists; eexists; reflexivity).
  - apply Z.ltb_lt in G. lia.
  - apply Z.ltb_lt in G. unfold_monad.
    destruct (critiqueF (loc_current loc) (world r)) as [[v|e] w1]; simpl.
    + destruct (negb (Array_isArray (orEmptyArray v))
                || (Array_length (orEmptyArray v) =? 0)); simpl.
      * destruct (Date_now w1). eexists; eexists; reflexivity.
      * destruct (reviseF _ _ _ w1) as [[cur|e] w2]; simpl.
        -- destruct (delay >? 0); apply IH; simpl; lia.
        -- destruct (Date_now w2). eexists; eexists; reflexivity.
    + destruct (Date_now w1). eexists; eexists; reflexivity.
Qed.

Lemma loop_complete i critiqueF reviseF maxIter delay stepStartState draftSt :
  forall loc (r : Run State Issue W) out r',
    LoopRun i critiqueF reviseF maxIter delay stepStartState draftSt loc r out r' ->
    forall fuel,
      (Z.to_nat (Z.max 1 maxIter - loc_iterations loc) <= fuel)%nat ->
      critiqueReviseLoop fuel i critiqueF reviseF maxIter delay stepStartState
        draftSt loc r = Some (out, r').
Proof.
  induction 1 as [loc r G | loc r e w1 t w2 G C D | loc r v w1 t w2 G C N D
                  | loc r v w1 e w2 t w3 G C N R D
                  | loc r v w1 cur w2 out r' G C N R _ IH];
    intros fuel F.
  - destruct fuel; simpl; rewrite G; reflexivity.
  - pose proof G as G'. apply Z.ltb_lt in G'.
    destruct fuel as [|fuel]; [lia|]. simpl. rewrite G. unfold_monad.
    rewrite C. simpl. rewrite D. reflexivity.
  - pose proof G as G'. apply Z.ltb_lt in G'.
    destruct fuel as [|fuel]; [lia|]. simpl. rewrite G. unfold_monad.
    rewrite C. simpl. unfold noIssues in N. rewrite N. simpl. rewrite D. reflexivity.
  - pose proof G as G'. apply Z.ltb_lt in G'.
    destruct fuel as [|fuel]; [lia|]. simpl. rewrite G. unfold_monad.
    rewrite C. simpl. unfold noIssues in N. rewrite N. simpl. rewrite R. simpl.
    rewrite D. simpl. rewrite <- app_assoc. reflexivity.
  - pose proof G as G'. apply Z.ltb_lt in G'.
    destruct fuel as [|fuel]; [lia|]. simpl. rewrite G. unfold_monad.
    rewrite C. simpl. unfold noIssues in N. rewrite N. simpl. rewrite R. simpl.
    rewrite <- app_assoc. simpl.
    specialize (IH fuel). simpl in IH. unfold afterPause in IH.
    destruct (delay >? 0); apply IH; lia.
Qed.

Lemma stepBody_sound i slot state (r : Run State Issue W) out r' :
  stepBody i slot state r = Some (out, r') -> StepRun i slot state r out r'.
Proof.
  unfold stepBody. intros E.
  destruct (draft (slotOrEmpty slot)) as [d|] eqn:Ed;
    [destruct (critique (slotOrEmpty slot)) as [c|] eqn:Ec;
     [destruct (revise (slotOrEmpty slot)) as [rv|] eqn:Er|]|].
  2-4: unfold_monad; destruct (Date_now (world r)) as [t w] eqn:D; simpl in E;
    inversion E; subst; apply StepInvalid; auto.
  destruct slot as [| |s]; try discriminate. simpl in *.
  unfold bind at 1 in E. unfold tryCatch at 1 in E. unfold callDraft in E.
  destruct (d state (world r)) as [[ds|e] w1] eqn:Dr.
  - unfold bind at 1 in E.
    destruct (critiqueReviseLoop _ _ _ _ _ _ _ _ _ _) as [[[loc|e] r1]|] eqn:L;
      try discriminate.
    + apply loop_sound in L. unfold capCheck in E. unfold_monad. simpl in E.
      fold (atCapWithIssues s loc) in E.
      destruct (atCapWithIssues s loc) eqn:A.
      * destruct (Date_now (world r1)) as [t w2] eqn:D. simpl in E.
        inversion E; subst. eapply StepCapped; eauto.
      * inversion E; subst. eapply StepSettles; eauto.
    + apply loop_sound in L. inversion E; subst. eapply StepLoopThrows; eauto.
  - unfold_monad. simpl in E. destruct (Date_now w1) as [t w2] eqn:D. simpl in E.
    inversion E; subst. eapply StepDraftThrows; eauto.
Qed.

Lemma stepBody_complete i slot state (r : Run State Issue W) out r' :
  StepRun i slot state r out r' -> stepBody i slot state r = Some (out, r').
Proof.
  destruct 1 as [r t w Hinv D | r s d c rv e w1 t w2 -> Ed Ec Er Dr D
                 | r s d c rv ds w1 e r' -> Ed Ec Er Dr L
                 | r s d c rv ds w1 loc r' -> Ed Ec Er Dr L A
                 | r s d c rv ds w1 loc r' t w2 -> Ed Ec Er Dr L A D];
    unfold stepBody; simpl.
  - destruct (draft (slotOrEmpty slot));
      [destruct (critique (slotOrEmpty slot));
       [destruct (revise (slotOrEmpty slot))|]|].
    1: destruct Hinv as [?|[?|?]]; discriminate.
    all: unfold_monad; rewrite D; reflexivity.
  - rewrite Ed, Ec, Er. unfold_monad. rewrite Dr. simpl. rewrite D. reflexivity.
  - rewrite Ed, Ec, Er. unfold bind at 1. unfold tryCatch at 1. unfold callDraft.
    rewrite Dr. unfold bind at 1.
    rewrite (loop_complete _ _ _ _ _ _ _ _ _ _ _ L); [reflexivity | simpl; lia].
  - rewrite Ed, Ec, Er. unfold bind at 1. unfold tryCatch at 1. unfold callDraft.
    rewrite Dr. unfold bind at 1.
    rewrite (loop_complete _ _ _ _ _ _ _ _ _ _ _ L); [| simpl; lia].
    unfold capCheck. unfold_monad. simpl. fold (atCapWithIssues s loc).
    rewrite A. reflexivity.
  - rewrite Ed, Ec, Er. unfold bind at 1. unfold tryCatch at 1. unfold callDraft.
    rewrite Dr. unfold bind at 1.
    rewrite (loop_complete _ _ _ _ _ _ _ _ _ _ _ L); [| simpl; lia].
    unfold capCheck. unfold_monad. simpl. fold (atCapWithIssues s loc).
    rewrite A. rewrite D. reflexivity.
Qed.

Lemma stepBody_total i slot state (r : Run State Issue W) :
  exists out r', stepBody i slot state r = Some (out, r').
Proof.
  unfold stepBody.
  destruct (draft (slotOrEmpty slot)) as [d|];
    [destruct (critique (slotOrEmpty slot)) as [c|];
     [destruct (revise (slotOrEmpty slot)) as [rv|]|]|].
  2-4: unfold_monad; destruct (Date_now (world r)); eexists; eexists; reflexivity.
  unfold bind at 1. unfold tryCatch at 1. unfold callDraft.
  destruct (d state (world r)) as [[ds|e] w1].
  - unfold bind at 1.
    match goal with
    | |- context [critiqueReviseLoop ?f ?i ?c ?rv ?m ?dl ?st ?ds ?loc ?r] =>
        destruct (loop_total i c rv m dl st ds f loc r) as (out & r1 & ->);
          [simpl; lia|]
    end.
    destruct out as [loc|e]; [|eexists; eexists; reflexivity].
    unfold capCheck. unfold bind at 1.
    destruct slot as [| |s]; simpl; unfold_monad.
    1-2: eexists; eexists; reflexivity.
    destruct (_ && _); [destruct (Date_now (world r1))|]; eexists; eexists; reflexivity.
  - unfold_monad. simpl. destruct (Date_now w1). eexists; eexists; reflexivity.
Qed.
End Adequacy.

(* ================================================================== *)
(** * The message of an invalid step names its index *)
(* ================================================================== *)

Lemma decimal_inj (i j : Z) : decimal i = decimal j -> i = j.
Proof.
  unfold decimal. intros E.
  assert (P : forall z, NilZero.int_of_string (NilZero.string_of_int (Z.to_int z))
                        = Some (Z.to_int z)).
  { intros z. apply NilZero.isi; destruct z; simpl; try discriminate;
      intros [= E']; now apply Unsigned.to_uint_nonnil in E'. }
  pose proof (P i) as Pi. rewrite E, P in Pi. injection Pi as Pi.
  rewrite <- (DecimalZ.of_to i), <- (DecimalZ.of_to j). now rewrite Pi.
Qed.

Lemma string_length_append (s t : string) :
  String.length (String.append s t) = (String.length s + String.length t)%nat.
Proof. induction s as [|c s IH]; simpl; [reflexivity|]. now rewrite IH. Qed.

Lemma string_append_inv_tail (s1 s2 t : string) :
  String.append s1 t = String.append s2 t -> s1 = s2.
Proof.
  revert s2. induction s1 as [|c s1 IH]; intros [|c' s2] E; simpl in E.
  - reflexivity.
  - apply (f_equal String.length) in E. simpl in E.
    rewrite string_length_append in E. lia.
  - apply (f_equal String.length) in E. simpl in E.
    rewrite string_length_append in E. lia.
  - injection E as -> E. f_equal. now apply IH.
Qed.

Lemma invalidMessage_inj (i j : Z) : invalidMessage i = invalidMessage j -> i = j.
Proof.
  unfold invalidMessage. intros E. simpl in E. injection E as E.
  apply string_append_inv_tail in E. now apply decimal_inj.
Qed.

(* ================================================================== *)
(** * Counting invocations *)
(* ================================================================== *)

Section Counting.
Context {State Issue : Type}.
Implicit Types evs : list (Event State Issue).

Lemma critiqueCalls_nil i : critiqueCalls i (@nil (Event State Issue)) = 0%nat.
Proof. reflexivity. Qed.

Lemma reviseCalls_nil i : reviseCalls i (@nil (Event State Issue)) = 0%nat.
Proof. reflexivity. Qed.

Lemma critiqueCalls_app i evs1 evs2 :
  critiqueCalls i (evs1 ++ evs2) = (critiqueCalls i evs1 + critiqueCalls i evs2)%nat.
Proof. unfold critiqueCalls. now rewrite filter_app, length_app. Qed.

Lemma reviseCalls_app i evs1 evs2 :
  reviseCalls i (evs1 ++ evs2) = (reviseCalls i evs1 + reviseCalls i evs2)%nat.
Proof. unfold reviseCalls. now rewrite filter_app, length_app. Qed.

Lemma critiqueCalls_critique i arg res evs :
  critiqueCalls i (EvCritique i arg res :: evs) = S (critiqueCalls i evs).
Proof. unfold critiqueCalls. simpl. now rewrite Z.eqb_refl. Qed.

Lemma critiqueCalls_revise i j arg issues prev res evs :
  critiqueCalls i (EvRevise j arg issues prev res :: evs) = critiqueCalls i evs.
Proof. reflexivity. Qed.

Lemma critiqueCalls_draft i j arg res evs :
  critiqueCalls i (EvDraft j arg res :: evs) = critiqueCalls i evs.
Proof. reflexivity. Qed.

Lemma reviseCalls_revise i arg issues prev res evs :
  reviseCalls i (EvRevise i arg issues prev res :: evs) = S (reviseCalls i evs).
Proof. unfold reviseCalls. simpl. now rewrite Z.eqb_refl. Qed.

Lemma reviseCalls_critique i j arg res evs :
  reviseCalls i (EvCritique j arg res :: evs) = reviseCalls i evs.
Proof. reflexivity. Qed.

Lemma reviseCalls_draft i j arg res evs :
  reviseCalls i (EvDraft j arg res :: evs) = reviseCalls i evs.
Proof. reflexivity. Qed.

(** An invocation by another step does not count. *)
Lemma critiqueCalls_other i evs :
  Forall (fun ev => eventStep ev <> i) evs -> critiqueCalls i evs = 0%nat.
Proof.
  unfold critiqueCalls. induction 1 as [|ev evs Hev _ IH]; simpl; [reflexivity|].
  apply Z.eqb_neq in Hev. rewrite Hev, andb_false_r. exact IH.
Qed.

Lemma reviseCalls_other i evs :
  Forall (fun ev => eventStep ev <> i) evs -> reviseCalls i evs = 0%nat.
Proof.
  unfold reviseCalls. induction 1 as [|ev evs Hev _ IH]; simpl; [reflexivity|].
  apply Z.eqb_neq in Hev. rewrite Hev, andb_false_r. exact IH.
Qed.

(** A critique result with issues is a non-empty array. *)
Lemma issues_inv (v : CritiqueValue Issue) :
  noIssues (orEmptyArray v) = false ->
  exists issues, v = Arr issues /\ issues <> [].
Proof.
  destruct v as [|l|]; simpl; try discriminate.
  destruct l; [discriminate|]. intros _. eexists; split; [reflexivity|discriminate].
Qed.
End Counting.

Create Rewrite HintDb calls.
#[local] Hint Rewrite @critiqueCalls_nil @reviseCalls_nil @critiqueCalls_app @reviseCalls_app @critiqueCalls_critique
  @critiqueCalls_revise @critiqueCalls_draft @reviseCalls_revise
  @reviseCalls_critique @reviseCalls_draft : calls.

(* ================================================================== *)
(** * What a loop run appends *)
(* ================================================================== *)

Section LoopFacts.
Context {State Issue W : Type} `{Host W}.
Variable i : Z.
Variable critiqueF : State -> W -> Result (CritiqueValue Issue) * W.
Variable reviseF : State -> list Issue -> State -> W -> Result State * W.
Variables maxIter delay : Z.
Variables stepStartState draftSt : State.

Lemma loop_summary loc (r : Run State Issue W) out r' :
  LoopRun i critiqueF reviseF maxIter delay stepStartState draftSt loc r out r' ->
  exists ents evs,
    auditHistory r' = auditHistory r ++ ents
    /\ calls r' = calls r ++ evs
    /\ LoopSummary i maxIter stepStartState draftSt loc out ents evs.
Proof.
  induction 1 as [loc r G | loc r e w1 t w2 G C D | loc r v w1 t w2 G C N D
                  | loc r v w1 e w2 t w3 G C N R D
                  | loc r v w1 cur w2 out r' G C N R _ IH];
    try apply Z.ltb_lt in G; try apply Z.ltb_ge in G.
  - exists [], []. rewrite !app_nil_r. unfold LoopSummary.
    autorewrite with calls. simpl.
    repeat split; auto; try lia.
    right. repeat split; auto; lia.
  - eexists; eexists. simpl. split; [reflexivity|]. split; [reflexivity|].
    unfold LoopSummary. autorewrite with calls. simpl.
    repeat split; auto; try lia.
    eexists; split; [reflexivity|]. now left.
  - eexists; eexists. simpl. split; [reflexivity|]. split; [reflexivity|].
    unfold LoopSummary. autorewrite with calls. simpl.
    repeat split; auto; try lia.
    left. repeat split; auto; try lia.
    exists t, v, []. repeat split; auto.
  - eexists; eexists. simpl. split; [reflexivity|]. split; [reflexivity|].
    unfold LoopSummary. autorewrite with calls. simpl.
    repeat split; auto; try lia.
    eexists; split; [reflexivity|]. now right.
  - destruct IH as (ents & evs & Hh & Hc & Hi & He & Hcc & Hrc & Hout).
    simpl in *. exists ents. eexists.
    split; [exact Hh|]. split; [rewrite Hc, <- app_assoc; reflexivity|].
    destruct (issues_inv _ N) as (issues & -> & Hne). simpl in *.
    assert (Hrep : reportsNoIssues
              (EvCritique i (loc_current loc) (Returns (Arr issues))
               : Event State Issue) = false).
    { simpl. destruct issues; [contradiction|reflexivity]. }
    unfold LoopSummary. autorewrite with calls. simpl.
    split; [exact Hi|]. split; [repeat constructor; exact He|].
    split; [lia|]. split; [lia|].
    destruct out as [loc'|e].
    + destruct Hout as [(Hlt & Hst & Hno & Hsr & Hri & t & v & evs0 & -> & -> & Hv & Hall)
                       |(Hge & -> & Hst & Hsr & Hri & Hall & Hlast)].
      * left. autorewrite with calls in *. simpl in *.
        repeat split; auto; try lia.
        exists t, v, (EvCritique i (loc_current loc) (Returns (Arr issues))
                        :: EvRevise i (loc_current loc) issues stepStartState (Returns cur)
                        :: evs0).
        repeat split; auto.
      * right. repeat split; auto; try lia.
        right. destruct Hlast as [[-> ->]|(evs0 & cand & iss & cur' & -> & ? & ? & ? & ?)].
        -- exists [], (loc_current loc), issues, cur. simpl in *.
           repeat split; auto. lia.
        -- exists (EvCritique i (loc_current loc) (Returns (Arr issues))
                     :: EvRevise i (loc_current loc) issues stepStartState (Returns cur)
                     :: evs0), cand, iss, cur'.
           repeat split; auto.
    + destruct Hout as (Hall & en & -> & Hph).
      split; [repeat constructor; auto|].
      exists en. split; auto.
Qed.
End LoopFacts.

(* ================================================================== *)
(** * What a step appends *)
(* ================================================================== *)

Section StepFacts.
Context {State Issue W : Type} `{Host W}.

Lemma step_summary i slot state (r : Run State Issue W) out r' :
  StepRun i slot state r out r' ->
  exists ents evs,
    auditHistory r' = auditHistory r ++ ents
    /\ calls r' = calls r ++ evs
    /\ StepSummary i slot state out ents evs.
Proof.
  destruct 1 as [r t w Hinv D | r s d c rv e w1 t w2 -> Ed Ec Er Dr D
                 | r s d c rv ds w1 e r' -> Ed Ec Er Dr L
                 | r s d c rv ds w1 loc r' -> Ed Ec Er Dr L A
                 | r s d c rv ds w1 loc r' t w2 -> Ed Ec Er Dr L A D];
    unfold StepSummary, budget; simpl.
  - exists [invalidEntry i t (invalidMessage i) state], [].
    split; [reflexivity|]. split; [now rewrite app_nil_r|].
    autorewrite with calls. repeat split; auto; try lia.
    eexists; split; [reflexivity|]. now left.
  - eexists; eexists. split; [reflexivity|]. split; [reflexivity|].
    autorewrite with calls. repeat split; auto; try lia.
    eexists; split; [reflexivity|]. right; now left.
  - apply loop_summary in L.
    destruct L as (ents & evs & Hh & Hc & Hi & He & Hcc & Hrc & Hall & en & -> & Hph).
    simpl in *. exists [en]. eexists.
    split; [exact Hh|]. split; [rewrite Hc, <- app_assoc; reflexivity|].
    simpl. autorewrite with calls.
    split; [exact Hi|]. split; [constructor; auto|].
    split; [lia|]. split; [lia|]. split; [constructor; auto|].
    exists en. split; [reflexivity|]. destruct Hph; auto.
  - apply loop_summary in L.
    destruct L as (ents & evs & Hh & Hc & Hi & He & Hcc & Hrc & Hout).
    simpl in *. exists ents. eexists.
    split; [exact Hh|]. split; [rewrite Hc, <- app_assoc; reflexivity|].
    simpl. autorewrite with calls.
    split; [exact Hi|]. split; [constructor; auto|].
    split; [lia|]. split; [lia|].
    destruct Hout as [(Hlt & Hst & Hno & Hsr & Hri & t & v & evs0 & -> & -> & Hv & Hall)
                     |(Hge & -> & Hst & Hsr & Hri & Hall & Hlast)].
    + left. rewrite Hst.
      exists t, ds, (loc_iterations loc), v, (EvDraft i state (Returns ds) :: evs0).
      autorewrite with calls in *. simpl in *.
      repeat split; auto; try lia.
    + exfalso. unfold atCapWithIssues in A.
      destruct Hlast as [[_ ->]|(evs0 & cand & iss & cur' & _ & Hne & _ & Hcr & Hit)].
      * simpl in Hge. lia.
      * rewrite Hcr, Hit in A. simpl in A. unfold nullish, defaultTo in *.
        destruct iss; [contradiction|].
        rewrite (proj2 (Z.geb_le _ _)) in A by lia. simpl in A.
        unfold Array_length in A. simpl in A. discriminate.
  - apply loop_summary in L.
    destruct L as (ents & evs & Hh & Hc & Hi & He & Hcc & Hrc & Hout).
    simpl in *.
    destruct Hout as [(Hlt & Hst & Hno & Hsr & Hri & t' & v & evs0 & -> & -> & Hv & Hall)
                     |(Hge & -> & Hst & Hsr & Hri & Hall & Hlast)].
    + exfalso. unfold atCapWithIssues in A.
      apply andb_prop in A. destruct A as [A _].
      apply andb_prop in A. destruct A as [A _].
      apply Z.geb_le in A. unfold nullish, defaultTo in *. lia.
    + destruct Hlast as [[_ ->]|(evs0 & cand & iss & cur' & -> & Hne & Hcu & Hcr & Hit)].
      * simpl in Hge. lia.
      * eexists; eexists.
        split; [rewrite Hh, app_nil_r; reflexivity|].
        split; [rewrite Hc, <- app_assoc; reflexivity|].
        autorewrite with calls in *. simpl in *.
        split; [repeat constructor|]. split; [constructor; auto|].
        split; [lia|]. split; [lia|].
        right. exists t, ds, iss, cand, (EvDraft i state (Returns ds) :: evs0).
        rewrite Hcr, Hit, Hcu.
        repeat split; auto; try lia.
Qed.
End StepFacts.

(* ================================================================== *)
(** * What a run appends *)
(* ================================================================== *)

Section RunFacts.
Context {State Issue W : Type} `{Host W}.

Lemma nonDecreasing_app (l1 l2 : list Z) :
  nonDecreasing l1 -> nonDecreasing l2 ->
  (forall x y, In x l1 -> In y l2 -> x <= y) ->
  nonDecreasing (l1 ++ l2).
Proof.
  induction l1 as [|x l1 IH]; simpl; intros H1 H2 Hx; [exact H2|].
  destruct H1 as [Hle H1]. split.
  - apply Forall_app. split; [exact Hle|].
    apply Forall_forall. intros y Hy. apply Hx; auto.
  - apply IH; auto.
Qed.

Lemma nonDecreasing_const (i : Z) (l : list Z) :
  Forall (fun x => x = i) l -> nonDecreasing l.
Proof.
  induction 1 as [|x l -> Hl IH]; simpl; [exact I|]. split; [|exact IH].
  eapply Forall_impl; [|exact Hl]. simpl. intros; lia.
Qed.

Lemma runSteps_total :
  forall steps i state (r : Run State Issue W),
    exists out r', runSteps i steps state r = Some (out, r').
Proof.
  induction steps as [|slot rest IH]; intros i state r; simpl.
  - eexists; eexists; reflexivity.
  - unfold bind.
    destruct (stepBody_total i slot state r) as ([st|e] & r1 & ->).
    + apply IH.
    + eexists; eexists; reflexivity.
Qed.

Lemma runSteps_app :
  forall pre post i state (r : Run State Issue W),
    runSteps i (pre ++ post) state r
    = bind (runSteps i pre state)
        (fun st => runSteps (i + Z.of_nat (List.length pre)) post st) r.
Proof.
  induction pre as [|slot pre IH]; intros post i state r.
  - simpl. unfold bind, ret. now rewrite Z.add_0_r.
  - cbn [runSteps app]. unfold bind.
    destruct (stepBody i slot state r) as [[[st|e] r1]|]; auto.
    rewrite IH. unfold bind.
    replace (i + 1 + Z.of_nat (List.length pre))
      with (i + Z.of_nat (List.length (slot :: pre)))
      by (cbn [List.length]; lia).
    reflexivity.
Qed.

(** The entries and invocations of a run from index [i]: indices stay in
    the range of the steps run, the history is ordered, each step keeps
    within its budget, and each capped entry is backed by its last
    revise. *)
Lemma run_summary :
  forall steps i state (r : Run State Issue W) out r',
    runSteps i steps state r = Some (out, r') ->
    exists ents evs,
      auditHistory r' = auditHistory r ++ ents
      /\ calls r' = calls r ++ evs
      /\ Forall (fun e => i <= stepIndex e < i + Z.of_nat (List.length steps)) ents
      /\ Forall (fun ev => i <= eventStep ev < i + Z.of_nat (List.length steps)) evs
      /\ nonDecreasing (map stepIndex ents)
      /\ (forall k slot, nth_error steps k = Some slot ->
            Z.of_nat (critiqueCalls (i + Z.of_nat k) evs) <= budget slot
            /\ Z.of_nat (reviseCalls (i + Z.of_nat k) evs) <= budget slot)
      /\ (forall e, In e ents -> phase e = "revise:capped" ->
            lastReviseUnchecked evs e).
Proof.
  induction steps as [|slot rest IH]; intros i state r out r' E.
  - simpl in E. inversion E; subst. exists [], []. rewrite !app_nil_r.
    repeat split; auto.
    + destruct k; discriminate.
    + destruct k; discriminate.
    + contradiction.
  - cbn [runSteps] in E. unfold bind in E.
    destruct (stepBody i slot state r) as [[res r1]|] eqn:B; [|discriminate].
    apply stepBody_sound, step_summary in B.
    destruct B as (ents1 & evs1 & Hh1 & Hc1 & Hi1 & He1 & Hcc1 & Hrc1 & Hout1).
    assert (Hcap1 : forall after e,
               In e ents1 -> phase e = "revise:capped" ->
               Forall (fun ev => eventStep ev <> i) after ->
               lastReviseUnchecked (evs1 ++ after) e).
    { intros after e He Hp Hafter.
      destruct res as [st|ex].
      - destruct Hout1 as [(t & ds & iters & v & evs0 & -> & _)
                          |(t & ds & issues & cand & evs0 & -> & Hne & _ & _ & -> & _)];
          destruct He as [<-|[]].
        + simpl in Hp. destruct (iters =? 0); discriminate.
        + exists evs0, after, cand, issues, state, st. simpl.
          rewrite <- app_assoc. repeat split; auto.
      - destruct Hout1 as (_ & en & -> & Hph). destruct He as [<-|[]].
        rewrite Hp in Hph. destruct Hph as [?|[?|[?|?]]]; discriminate. }
    assert (Hlen : i + Z.of_nat (List.length (slot :: rest))
                   = i + 1 + Z.of_nat (List.length rest)).
    { cbn [List.length]. lia. }
    destruct res as [st|ex].
    + apply IH in E.
      destruct E as (ents2 & evs2 & Hh2 & Hc2 & Hi2 & He2 & Hnd2 & Hb2 & Hcap2).
      exists (ents1 ++ ents2), (evs1 ++ evs2).
      split; [rewrite Hh2, Hh1, app_assoc; reflexivity|].
      split; [rewrite Hc2, Hc1, app_assoc; reflexivity|].
      split; [|split; [|split; [|split]]].
      * apply Forall_app. split.
        -- eapply Forall_impl; [|exact Hi1]. simpl. intros; lia.
        -- eapply Forall_impl; [|exact Hi2]. simpl. intros; lia.
      * apply Forall_app. split.
        -- eapply Forall_impl; [|exact He1]. simpl. intros; lia.
        -- eapply Forall_impl; [|exact He2]. simpl. intros; lia.
      * rewrite map_app. apply nonDecreasing_app; auto.
        -- apply nonDecreasing_const with (i := i).
           apply Forall_map. exact Hi1.
        -- intros x y Hx Hy.
           apply in_map_iff in Hx. destruct Hx as (e1 & <- & Hx).
           apply in_map_iff in Hy. destruct Hy as (e2 & <- & Hy).
           rewrite Forall_forall in Hi1, Hi2.
           specialize (Hi1 _ Hx). specialize (Hi2 _ Hy). lia.
      * intros k sl Hk. autorewrite with calls.
        destruct k as [|k]; simpl in Hk.
        -- inversion Hk; subst sl. rewrite Z.add_0_r.
           rewrite (critiqueCalls_other i evs2), (reviseCalls_other i evs2).
           ++ lia.
           ++ eapply Forall_impl; [|exact He2]. simpl. intros; lia.
           ++ eapply Forall_impl; [|exact He2]. simpl. intros; lia.
        -- destruct (Hb2 k sl Hk) as [Hk1 Hk2].
           replace (i + Z.of_nat (S k)) with (i + 1 + Z.of_nat k) by lia.
           rewrite (critiqueCalls_other (i + 1 + Z.of_nat k) evs1),
             (reviseCalls_other (i + 1 + Z.of_nat k) evs1).
           ++ simpl. lia.
           ++ eapply Forall_impl; [|exact He1]. simpl. intros; lia.
           ++ eapply Forall_impl; [|exact He1]. simpl. intros; lia.
      * intros e He Hp. apply in_app_or in He. destruct He as [He|He].
        -- apply Hcap1; auto.
           eapply Forall_impl; [|exact He2]. simpl. intros; lia.
        -- destruct (Hcap2 e He Hp)
             as (before & after & cand & issues & prev & cur & -> & Hne & Hf & Hcr & Haft).
           exists (evs1 ++ before), after, cand, issues, prev, cur.
           rewrite <- app_assoc. repeat split; auto.
    + inversion E; subst. exists ents1, evs1.
      split; [exact Hh1|]. split; [exact Hc1|].
      split; [|split; [|split; [|split]]].
      * eapply Forall_impl; [|exact Hi1]. simpl. intros; lia.
      * eapply Forall_impl; [|exact He1]. simpl. intros; lia.
      * apply nonDecreasing_const with (i := i). apply Forall_map. exact Hi1.
      * intros k sl Hk. destruct k as [|k]; simpl in Hk.
        -- inversion Hk; subst sl. rewrite Z.add_0_r. lia.
        -- rewrite (critiqueCalls_other (i + Z.of_nat (S k)) evs1),
             (reviseCalls_other (i + Z.of_nat (S k)) evs1).
           ++ unfold budget. simpl. lia.
           ++ eapply Forall_impl; [|exact He1]. simpl. intros; lia.
           ++ eapply Forall_impl; [|exact He1]. simpl. intros; lia.
      * intros e He Hp. rewrite <- (app_nil_r evs1). apply Hcap1; auto.
Qed.
End RunFacts.

(* ================================================================== *)
(** * The audit chain *)
(* ================================================================== *)

Lemma byteOfHex_hexDigits (b : Byte.byte) :
  byteOfHex (hexDigit (Byte.to_nat b / 16)) (hexDigit (Byte.to_nat b mod 16)) = Some b.
Proof. destruct b; reflexivity. Qed.

Lemma Buffer_toHex_cons (b : Byte.byte) (rest : list Byte.byte) :
  Buffer_toHex (b :: rest)
  = String (hexDigit (Byte.to_nat b / 16))
      (String (hexDigit (Byte.to_nat b mod 16)) (Buffer_toHex rest)).
Proof. reflexivity. Qed.

Lemma Buffer_fromHex_toHex (buf : list Byte.byte) :
  Buffer_fromHex (Buffer_toHex buf) = Some buf.
Proof.
  induction buf as [|b rest IH]; [reflexivity|].
  rewrite Buffer_toHex_cons. cbn [Buffer_fromHex].
  now rewrite byteOfHex_hexDigits, IH.
Qed.

Lemma Buffer_toHex_inj (b1 b2 : list Byte.byte) :
  Buffer_toHex b1 = Buffer_toHex b2 -> b1 = b2.
Proof.
  intros E. apply (f_equal Buffer_fromHex) in E.
  rewrite !Buffer_fromHex_toHex in E. now injection E.
Qed.

Lemma Buffer_from_inj (s1 s2 : string) : Buffer_from s1 = Buffer_from s2 -> s1 = s2.
Proof.
  unfold Buffer_from. intros E.
  rewrite <- (string_of_list_byte_of_string s1), <- (string_of_list_byte_of_string s2).
  now rewrite E.
Qed.

Section ChainFacts.
Context {State Issue : Type} `{Platform State}.
Implicit Types entries pre post : list (AuditEntry State Issue).

(** The payload the code builds is the canonical payload. *)
Lemma payloadOf_canonical (entry : AuditEntry State Issue) :
  payloadOf entry = canonicalPayload_spec entry.
Proof.
  unfold payloadOf, canonicalPayload_spec, critiqueCount_spec.
  destruct entry as [i t ph er ins ds cr fs it]. simpl.
  f_equal. destruct cr as [[|l|]|]; reflexivity.
Qed.

Lemma chainLoop_fold entries :
  forall running, chainLoop running entries = fold_left chainStep_spec entries running.
Proof.
  induction entries as [|entry rest IH]; intros running; simpl; [reflexivity|].
  rewrite IH. unfold chainStep_spec, digest. simpl.
  now rewrite payloadOf_canonical.
Qed.

Lemma chainLoop_app pre post :
  forall running,
    chainLoop running (pre ++ post) = chainLoop (chainLoop running pre) post.
Proof. induction pre as [|e pre IH]; intros running; simpl; auto. Qed.

Lemma chainInputs_app pre post :
  forall running,
    chainInputs running (pre ++ post)
    = chainInputs running pre ++ chainInputs (chainLoop running pre) post.
Proof.
  induction pre as [|e pre IH]; intros running; simpl; [reflexivity|].
  f_equal. apply IH.
Qed.

(** Once two chains have different accumulators, the same further entries
    keep them apart, as long as SHA-256 does not collide on what they are
    fed. *)
Lemma chain_stays_apart post :
  forall h1 h2,
    h1 <> h2 ->
    (forall x y, In x (chainInputs h1 post) -> In y (chainInputs h2 post) ->
                 sha256 x = sha256 y -> x = y) ->
    chainLoop h1 post <> chainLoop h2 post.
Proof.
  induction post as [|e post IH]; intros h1 h2 Hne Hcf; simpl; [exact Hne|].
  unfold digest. simpl. apply IH.
  - intros E. apply Hcf in E; simpl; auto.
    apply app_inv_tail in E. contradiction.
  - intros x y Hx Hy. apply Hcf; simpl; auto.
Qed.

(** Entries with the same payload are interchangeable in the chain. *)
Lemma chainLoop_payload pre a b post :
  payloadOf a = payloadOf b ->
  forall running,
    chainLoop running (pre ++ a :: post) = chainLoop running (pre ++ b :: post).
Proof.
  intros E running. rewrite !chainLoop_app. simpl. now rewrite E.
Qed.
End ChainFacts.

(* ================================================================== *)
(** * Properties of the flow engine *)
(* ================================================================== *)

Section EngineProperties.
Context {State Issue W : Type} `{Host W}.

(** What a step body appends is determined by the runs before and
    after it. *)
Lemma stepBody_summary i slot state (r : Run State Issue W) out r' ents evs :
  stepBody i slot state r = Some (out, r') ->
  auditHistory r' = auditHistory r ++ ents ->
  calls r' = calls r ++ evs ->
  StepSummary i slot state out ents evs.
Proof.
  intros E Hh Hc. apply stepBody_sound, step_summary in E.
  destruct E as (ents' & evs' & Hh' & Hc' & S).
  rewrite Hh' in Hh. apply app_inv_head in Hh.
  rewrite Hc' in Hc. apply app_inv_head in Hc.
  now subst.
Qed.

(** C1 (as amended) -- Termination: the body of every step completes; its
    critique/revise loop invokes critique at most [Math.max(1, N)] times
    and revise at most [Math.max(1, N)] times, where [N] is the step's
    [maxIterations] (3 when left out); a step that completes normally
    has written exactly one entry, [draft:accepted], [revise:accepted] or
    [revise:capped]; revise ran at most [Math.max(1, N) - 1] times unless
    that entry is [revise:capped], and exactly [Math.max(1, N)] times when
    it is. *)
Theorem loop_invocations_bounded
        (i : Z) (slot : StepSlot State Issue W) (state : State)
        (r : Run State Issue W) :
  let N := defaultTo 3 (maxIterations (slotOrEmpty slot)) in
  exists out r' ents evs,
    stepBody i slot state r = Some (out, r')
    /\ auditHistory r' = auditHistory r ++ ents
    /\ calls r' = calls r ++ evs
    /\ Z.of_nat (critiqueCalls i evs) <= Z.max 1 N
    /\ Z.of_nat (reviseCalls i evs) <= Z.max 1 N
    /\ (forall st, out = Returns st ->
          exists e, ents = [e]
            /\ (phase e = "draft:accepted" \/ phase e = "revise:accepted"
                \/ phase e = "revise:capped")
            /\ (phase e <> "revise:capped" ->
                  Z.of_nat (reviseCalls i evs) <= Z.max 1 N - 1)
            /\ (phase e = "revise:capped" ->
                  Z.of_nat (reviseCalls i evs) = Z.max 1 N)).
Proof.
  intros N.
  destruct (stepBody_total i slot state r) as (out & r' & E).
  pose proof (stepBody_sound _ _ _ _ _ _ E) as SR.
  apply step_summary in SR.
  destruct SR as (ents & evs & Hh & Hc & _ & _ & Hcc & Hrc & Hout).
  exists out, r', ents, evs. unfold budget in *. fold N in Hcc, Hrc, Hout.
  repeat (split; [assumption|]).
  intros st ->.
  destruct Hout as [(t & ds & iters & v & evs0 & -> & Hit & Hlt & _)
                   |(t & ds & issues & cand & evs0 & -> & _ & Hex & _)].
  - eexists; split; [reflexivity|]. simpl. split; [|split].
    + destruct (iters =? 0); auto.
    + intros _. lia.
    + destruct (iters =? 0); discriminate.
  - eexists; split; [reflexivity|]. simpl. split; [|split]; auto.
    intros Hp. now contradiction Hp.
Qed.

(** C7 -- Monotonic audit order: every run, whether it resolves or
    rejects, completes with an audit history whose [stepIndex] values are
    non-decreasing in append order. *)
Theorem audit_order_monotonic
        (initialState : State) (steps : list (StepSlot State Issue W)) (w : W) :
  exists out r,
    execute initialState steps w = Some (out, r)
    /\ nonDecreasing (map stepIndex (auditHistory r)).
Proof.
  unfold execute.
  destruct (runSteps_total steps 0 initialState (mkRun w [] [])) as (out & r & E).
  exists out, r. split; [exact E|].
  apply run_summary in E.
  destruct E as (ents & evs & Hh & _ & _ & _ & Hnd & _).
  simpl in Hh. now rewrite Hh.
Qed.

(** C10 -- Every [revise:capped] entry of a run carries as [finalState]
    the value returned by the last revise invocation of its step, and as
    [critiques] the issues that the critique directly before that revise
    reported for the revise's input; after that revise the step invokes
    nothing more, so critique never sees the [finalState]. *)
Theorem capped_final_state_is_unchecked
        (initialState : State) (steps : list (StepSlot State Issue W)) (w : W)
        (out : Result State) (r : Run State Issue W) (e : AuditEntry State Issue) :
  execute initialState steps w = Some (out, r) ->
  In e (auditHistory r) ->
  phase e = "revise:capped" ->
  exists before after cand issues prev cur,
    calls r = before
              ++ [EvCritique (stepIndex e) cand (Returns (Arr issues));
                  EvRevise (stepIndex e) cand issues prev (Returns cur)]
              ++ after
    /\ issues <> []
    /\ finalState e = Some cur
    /\ critiques e = Some (Arr issues)
    /\ Forall (fun ev => eventStep ev <> stepIndex e) after.
Proof.
  unfold execute. intros E He Hp.
  apply run_summary in E.
  destruct E as (ents & evs & Hh & Hc & _ & _ & _ & _ & Hcap).
  simpl in Hh, Hc. rewrite Hh in He. rewrite Hc.
  exact (Hcap e He Hp).
Qed.

(** A step whose loop leaves by its guard is capped. *)
Lemma capped_step i s d c rv state (r : Run State Issue W) ds w1 loc r2 t w3 :
  draft s = Some d -> critique s = Some c -> revise s = Some rv ->
  d state (world r) = (Returns ds, w1) ->
  LoopRun i c rv (defaultTo 3 (maxIterations s)) (defaultTo 0 (delayMs s))
    state ds (mkLocals 0 ds (Arr []) state)
    (mkRun w1 (auditHistory r) (calls r ++ [EvDraft i state (Returns ds)]))
    (Returns loc) r2 ->
  Z.max 1 (defaultTo 3 (maxIterations s)) <= loc_iterations loc ->
  Date_now (world r2) = (t, w3) ->
  auditHistory r2 = auditHistory r
  /\ loc_iterations loc = Z.max 1 (defaultTo 3 (maxIterations s))
  /\ noIssues (loc_critiques loc) = false
  /\ stepBody i (SlotStep s) state r
     = Some (Returns (loc_current loc),
             mkRun w3
               (auditHistory r ++
                  [cappedEntry i t state ds (loc_current loc) (loc_critiques loc)
                     (loc_iterations loc)])
               (calls r2)).
Proof.
  intros Ed Ec Er Dr L Hge D.
  pose proof (loop_summary _ _ _ _ _ _ _ _ _ _ _ L) as S.
  destruct S as (ents & evs & Hh & Hc & _ & _ & _ & _ & Hout). simpl in *.
  destruct Hout as [(Hlt & _)|(_ & -> & _ & _ & _ & _ & Hlast)]; [lia|].
  destruct Hlast as [[_ ->]|(evs0 & cand & iss & cur & _ & Hne & Hcu & Hcr & Hit)].
  { simpl in Hge. lia. }
  rewrite app_nil_r in Hh.
  assert (Hno : noIssues (loc_critiques loc) = false).
  { rewrite Hcr. destruct iss; [contradiction|reflexivity]. }
  assert (A : atCapWithIssues s loc = true).
  { unfold atCapWithIssues, nullish, defaultTo in *. rewrite Hcr, Hit. simpl.
    rewrite (proj2 (Z.geb_le _ _)) by lia.
    destruct iss; [contradiction|reflexivity]. }
  repeat split; auto.
  rewrite <- Hh. apply stepBody_complete.
  eapply StepCapped; eauto.
Qed.

(** A loop whose critique always reports issues, and whose capabilities
    never throw, leaves by its guard. *)
Lemma stubborn_loop i c rv maxIter delay stepStartState draftSt
      loc (r : Run State Issue W) out r' :
  (forall st w, exists issues w', c st w = (Returns (Arr issues), w') /\ issues <> []) ->
  (forall st issues prev w, exists st' w', rv st issues prev w = (Returns st', w')) ->
  LoopRun i c rv maxIter delay stepStartState draftSt loc r out r' ->
  exists loc', out = Returns loc' /\ Z.max 1 maxIter <= loc_iterations loc'.
Proof.
  intros Hc Hrv.
  induction 1 as [loc r G | loc r e w1 t w2 G C D | loc r v w1 t w2 G C N D
                  | loc r v w1 e w2 t w3 G C N R D
                  | loc r v w1 cur w2 out r' G C N R _ IH].
  - apply Z.ltb_ge in G. eauto.
  - destruct (Hc (loc_current loc) (world r)) as (iss & w' & E & _). congruence.
  - destruct (Hc (loc_current loc) (world r)) as (iss & w' & E & Hne).
    rewrite E in C. inversion C; subst. destruct iss; [contradiction|discriminate].
  - destruct (Hrv (loc_current loc) (Array_elems (orEmptyArray v)) stepStartState w1)
      as (st' & w' & E). congruence.
  - exact IH.
Qed.

(** C3 -- Cap-and-proceed. First part: when the loop of a step leaves
    with the budget spent (the counter has reached [Math.max(1,
    maxIterations)]), issues remain, the loop itself has written nothing,
    and the step appends exactly one entry, [revise:capped], with
    [inputState], [draftState], the remaining [critiques], [finalState] the
    last candidate and [iterations] the count reached; the run goes on to
    the next step with that candidate as its state. Second part: with
    [maxIterations = 2], a critique that never clears and capabilities
    that never throw, a one-step run resolves, and its history is one
    [revise:capped] entry with [iterations = 2]. *)
Theorem cap_and_proceed :
  (forall i (s : Step State Issue W) d c rv rest state (r : Run State Issue W)
          ds w1 loc r2 t w3,
      draft s = Some d -> critique s = Some c -> revise s = Some rv ->
      d state (world r) = (Returns ds, w1) ->
      critiqueReviseLoop (Z.to_nat (Z.max 1 (defaultTo 3 (maxIterations s))))
        i c rv (defaultTo 3 (maxIterations s)) (defaultTo 0 (delayMs s))
        state ds (mkLocals 0 ds (Arr []) state)
        (mkRun w1 (auditHistory r) (calls r ++ [EvDraft i state (Returns ds)]))
      = Some (Returns loc, r2) ->
      Z.max 1 (defaultTo 3 (maxIterations s)) <= loc_iterations loc ->
      Date_now (world r2) = (t, w3) ->
      let capped :=
        {| stepIndex := i; ts := t; phase := "revise:capped"; error := None;
           inputState := Some state; draftState := Some ds;
           critiques := Some (loc_critiques loc);
           finalState := Some (loc_current loc);
           iterations := Some (Z.max 1 (defaultTo 3 (maxIterations s))) |} in
      noIssues (loc_critiques loc) = false
      /\ auditHistory r2 = auditHistory r
      /\ stepBody i (SlotStep s) state r
         = Some (Returns (loc_current loc),
                 mkRun w3 (auditHistory r ++ [capped]) (calls r2))
      /\ runSteps i (SlotStep s :: rest) state r
         = runSteps (i + 1) rest (loc_current loc)
             (mkRun w3 (auditHistory r ++ [capped]) (calls r2)))
  /\
  (forall (s : Step State Issue W) d c rv initialState w,
      draft s = Some d -> critique s = Some c -> revise s = Some rv ->
      maxIterations s = Some 2 ->
      (forall st w, exists st' w', d st w = (Returns st', w')) ->
      (forall st w, exists issues w',
            c st w = (Returns (Arr issues), w') /\ issues <> []) ->
      (forall st issues prev w, exists st' w',
            rv st issues prev w = (Returns st', w')) ->
      exists finalSt r e,
        execute initialState [SlotStep s] w = Some (Returns finalSt, r)
        /\ auditHistory r = [e]
        /\ phase e = "revise:capped"
        /\ iterations e = Some 2
        /\ finalState e = Some finalSt).
Proof.
  split.
  - intros i s d c rv rest state r ds w1 loc r2 t w3 Ed Ec Er Dr L Hge D capped.
    apply loop_sound in L.
    destruct (capped_step _ _ _ _ _ _ _ _ _ _ _ _ _ Ed Ec Er Dr L Hge D)
      as (Hh & Hit & Hno & E).
    assert (Hcap : cappedEntry i t state ds (loc_current loc) (loc_critiques loc)
                     (loc_iterations loc) = capped).
    { unfold cappedEntry, capped. now rewrite Hit. }
    rewrite Hcap in E.
    repeat split; auto.
    cbn [runSteps]. unfold bind. now rewrite E.
  - intros s d c rv initialState w Ed Ec Er Hmax Hd Hc Hrv.
    destruct (Hd initialState w) as (ds & w1 & Dr).
    set (r0 := mkRun w [] [] : Run State Issue W).
    destruct (loop_total 0 c rv (defaultTo 3 (maxIterations s))
                (defaultTo 0 (delayMs s)) initialState ds
                (Z.to_nat (Z.max 1 (defaultTo 3 (maxIterations s))))
                (mkLocals 0 ds (Arr []) initialState)
                (mkRun w1 (auditHistory r0)
                   (calls r0 ++ [EvDraft 0 initialState (Returns ds)])))
      as (out & r2 & L); [simpl; lia|].
    apply loop_sound in L.
    destruct (stubborn_loop _ _ _ _ _ _ _ _ _ _ _ Hc Hrv L) as (loc & -> & Hge).
    destruct (Date_now (world r2)) as [t w3] eqn:D.
    destruct (capped_step 0 s d c rv initialState r0 ds w1 loc r2 t w3
                Ed Ec Er Dr L Hge D) as (_ & Hit & _ & E).
    eexists; eexists; eexists. split.
    + unfold execute. cbn [runSteps]. unfold bind. fold r0. rewrite E. reflexivity.
    + simpl. repeat split; auto.
      rewrite Hit, Hmax. reflexivity.
Qed.

(** A step whose first critique is clean is accepted as drafted. *)
Lemma accepted_as_drafted i s d c rv state (r : Run State Issue W) ds w1 v w2 t w3 :
  draft s = Some d -> critique s = Some c -> revise s = Some rv ->
  d state (world r) = (Returns ds, w1) ->
  c ds w1 = (Returns v, w2) ->
  noIssues (orEmptyArray v) = true ->
  Date_now w2 = (t, w3) ->
  stepBody i (SlotStep s) state r
  = Some (Returns ds,
          mkRun w3 (auditHistory r ++ [acceptedEntry i t state ds ds 0])
            (calls r ++ [EvDraft i state (Returns ds); EvCritique i ds (Returns v)])).
Proof.
  intros Ed Ec Er Dr C N D. apply stepBody_complete.
  replace (calls r ++ [EvDraft i state (Returns ds); EvCritique i ds (Returns v)])
    with ((calls r ++ [EvDraft i state (Returns ds)]) ++ [EvCritique i ds (Returns v)])
    by (now rewrite <- app_assoc).
  eapply (StepSettles i (SlotStep s) state r s d c rv ds w1
            (mkLocals 0 ds (orEmptyArray v) ds)); eauto.
  - eapply (LoopAccepts i c rv _ _ state ds (mkLocals 0 ds (Arr []) state)
              (mkRun w1 (auditHistory r) (calls r ++ [EvDraft i state (Returns ds)]))
              v w2 t w3); eauto.
    simpl. apply Z.ltb_lt. lia.
  - unfold atCapWithIssues. simpl.
    rewrite Z.geb_leb, (proj2 (Z.leb_gt _ _)) by lia. reflexivity.
Qed.

(** C4 -- A clean critique beats the cap. First part: if some critique
    invocation of a step reports no issues -- on any iteration, the final
    allowed one included -- the step completes normally and appends
    exactly one entry, which is [draft:accepted] when no revise ran and
    [revise:accepted] otherwise, and no [revise:capped] entry. Second
    part: with [maxIterations] at most 1 (so the budget is 1) and a first
    critique that reports no issues, the step appends [draft:accepted]
    alone. *)
Theorem clean_critique_beats_cap :
  (forall i slot state (r : Run State Issue W) out r' ents evs ev,
      stepBody i slot state r = Some (out, r') ->
      auditHistory r' = auditHistory r ++ ents ->
      calls r' = calls r ++ evs ->
      In ev evs -> reportsNoIssues ev = true ->
      exists e accepted,
        ents = [e]
        /\ out = Returns accepted
        /\ finalState e = Some accepted
        /\ iterations e = Some (Z.of_nat (reviseCalls i evs))
        /\ phase e = (if Z.of_nat (reviseCalls i evs) =? 0
                      then "draft:accepted" else "revise:accepted")
        /\ phase e <> "revise:capped")
  /\
  (forall i (s : Step State Issue W) d c rv n state (r : Run State Issue W)
          ds w1 v w2 t w3,
      draft s = Some d -> critique s = Some c -> revise s = Some rv ->
      maxIterations s = Some n -> n <= 1 ->
      d state (world r) = (Returns ds, w1) ->
      c ds w1 = (Returns v, w2) ->
      noIssues (orEmptyArray v) = true ->
      Date_now w2 = (t, w3) ->
      budget (SlotStep s) = 1
      /\ stepBody i (SlotStep s) state r
         = Some (Returns ds,
                 mkRun w3
                   (auditHistory r ++
                      [{| stepIndex := i; ts := t; phase := "draft:accepted";
                          error := None;
                          inputState := Some state; draftState := Some ds;
                          critiques := Some (Arr []); finalState := Some ds;
                          iterations := Some 0 |}])
                   (calls r ++ [EvDraft i state (Returns ds);
                                EvCritique i ds (Returns v)]))).
Proof.
  split.
  - intros i slot state r out r' ents evs ev E Hh Hc Hin Hev.
    pose proof (stepBody_summary _ _ _ _ _ _ _ _ E Hh Hc) as S.
    destruct S as (_ & _ & _ & _ & Hout).
    assert (Hcontra : Forall (fun ev => reportsNoIssues ev = false) evs -> False).
    { intros Hall. rewrite Forall_forall in Hall.
      specialize (Hall ev Hin). congruence. }
    destruct out as [st|ex].
    + destruct Hout as [(t & ds & iters & v & evs0 & -> & Hit & _)
                       |(t & ds & issues & cand & evs0 & _ & _ & _ & _ & _ & Hall)];
        [|now apply Hcontra in Hall].
      eexists; eexists. split; [reflexivity|]. simpl. subst iters.
      repeat split; auto.
      destruct (Z.of_nat (reviseCalls i evs) =? 0); discriminate.
    + destruct Hout as (Hall & _). now apply Hcontra in Hall.
  - intros i s d c rv n state r ds w1 v w2 t w3 Ed Ec Er Hmax Hn Dr C N D.
    split.
    + unfold budget. simpl. rewrite Hmax. simpl. lia.
    + apply (accepted_as_drafted i s d c rv state r ds w1 v w2 t w3); auto.
Qed.

(** C8 -- Pass-through: for a step whose critique always comes back with
    no issues (a falsy value, a value that is not an array, or an empty
    array), the body completes without invoking revise, and when its
    draft returns, the one entry it appends is [draft:accepted] with
    [iterations = 0]. *)
Theorem pass_through
        (i : Z) (s : Step State Issue W) d c rv (state : State)
        (r : Run State Issue W) :
  draft s = Some d -> critique s = Some c -> revise s = Some rv ->
  (forall st w, exists v w',
        c st w = (Returns v, w')
        /\ (v = Falsy \/ Array_isArray v = false \/ v = Arr [])) ->
  exists out r' ents evs,
    stepBody i (SlotStep s) state r = Some (out, r')
    /\ auditHistory r' = auditHistory r ++ ents
    /\ calls r' = calls r ++ evs
    /\ Forall (fun ev => isRevise ev = false) evs
    /\ reviseCalls i evs = 0%nat
    /\ (forall ds w1, d state (world r) = (Returns ds, w1) ->
          out = Returns ds
          /\ exists e, ents = [e]
               /\ phase e = "draft:accepted"
               /\ iterations e = Some 0
               /\ finalState e = Some ds).
Proof.
  intros Ed Ec Er Hclean.
  destruct (d state (world r)) as [[ds|ex] w1] eqn:Dr.
  - destruct (Hclean ds w1) as (v & w2 & C & Hv).
    assert (N : noIssues (orEmptyArray v) = true).
    { destruct Hv as [->|[Hv| ->]]; try reflexivity.
      destruct v; try reflexivity. discriminate. }
    destruct (Date_now w2) as [t w3] eqn:D.
    eexists; eexists; eexists; eexists.
    split; [apply (accepted_as_drafted i s d c rv state r ds w1 v w2 t w3); auto|].
    simpl. split; [reflexivity|]. split; [reflexivity|].
    split; [repeat constructor|]. split; [reflexivity|].
    intros ds' w1' E. inversion E; subst. split; [reflexivity|].
    eexists; split; [reflexivity|]. simpl. auto.
  - destruct (Date_now w1) as [t w2] eqn:D.
    eexists; eexists; eexists; eexists.
    split; [apply stepBody_complete; eapply StepDraftThrows; eauto|].
    simpl. split; [reflexivity|]. split; [reflexivity|].
    split; [repeat constructor|]. split; [reflexivity|].
    intros ds' w1' E. discriminate.
Qed.

(** An element without all three capabilities, met after the steps before
    it have succeeded, ends the run with an [invalid] entry. *)
Lemma invalid_slot_run pre slot post initialState w st (r1 : Run State Issue W) t w2 :
  draft (slotOrEmpty slot) = None \/ critique (slotOrEmpty slot) = None
  \/ revise (slotOrEmpty slot) = None ->
  execute initialState pre w = Some (Returns st, r1) ->
  Date_now (world r1) = (t, w2) ->
  let i := Z.of_nat (List.length pre) in
  execute initialState (pre ++ slot :: post) w
  = Some (Throws (ErrorObj "TypeError" (invalidMessage i)),
          mkRun w2 (auditHistory r1 ++ [invalidEntry i t (invalidMessage i) st])
            (calls r1))
  /\ Forall (fun e => stepIndex e <= i)
       (auditHistory r1 ++ [invalidEntry i t (invalidMessage i) st])
  /\ Forall (fun ev => eventStep ev < i) (calls r1).
Proof.
  intros Hinv E D i. unfold execute in *.
  split; [|split].
  - rewrite runSteps_app. unfold bind at 1. rewrite E.
    cbn [runSteps]. unfold bind. simpl. fold i.
    rewrite (stepBody_complete _ _ _ _ _ _ (StepInvalid i slot st r1 t w2 Hinv D)).
    reflexivity.
  - apply run_summary in E. destruct E as (ents & evs & Hh & _ & Hi & _).
    simpl in Hh. rewrite Hh. apply Forall_app. split.
    + eapply Forall_impl; [|exact Hi]. simpl. intros; lia.
    + repeat constructor. simpl. lia.
  - apply run_summary in E. destruct E as (ents & evs & _ & Hc & _ & He & _).
    simpl in Hc. rewrite Hc.
    eapply Forall_impl; [|exact He]. simpl. intros; lia.
Qed.

(** C6 -- Invalid step: in a run whose step at index [i] lacks [draft],
    [critique] or [revise], the steps before it having succeeded with
    state [st], [execute] appends an [invalid] entry for index [i] with
    [st] as [inputState] and rejects with the [TypeError] whose message
    names [i] and no other index; nothing after index [i] runs: no entry
    has a larger [stepIndex] and no capability of step [i] or of a later
    step is invoked. *)
Theorem invalid_step_fails_run
        (pre post : list (StepSlot State Issue W)) (s : Step State Issue W)
        (initialState : State) (w : W) (st : State) (r1 : Run State Issue W)
        (t : Z) (w2 : W) :
  draft s = None \/ critique s = None \/ revise s = None ->
  execute initialState pre w = Some (Returns st, r1) ->
  Date_now (world r1) = (t, w2) ->
  let i := Z.of_nat (List.length pre) in
  let message :=
    String.append "Step "
      (String.append (decimal i)
         " is invalid. Expected functions: draft, critique, revise.") in
  let invalid :=
    {| stepIndex := i; ts := t; phase := "invalid"; error := Some message;
       inputState := Some st; draftState := None; critiques := None;
       finalState := None; iterations := None |} in
  execute initialState (pre ++ SlotStep s :: post) w
  = Some (Throws (ErrorObj "TypeError" message),
          mkRun w2 (auditHistory r1 ++ [invalid]) (calls r1))
  /\ (forall j, invalidMessage j = message -> j = i)
  /\ Forall (fun e => stepIndex e <= i) (auditHistory r1 ++ [invalid])
  /\ Forall (fun ev => eventStep ev < i) (calls r1).
Proof.
  intros Hinv E D i message invalid.
  destruct (invalid_slot_run pre (SlotStep s) post initialState w st r1 t w2 Hinv E D)
    as (Hrun & Hents & Hevs).
  split; [exact Hrun|]. split; [|split; assumption].
  intros j Hj. now apply invalidMessage_inj.
Qed.

(** C9 -- A [null] or [undefined] element of the step list at index [i],
    the steps before it having succeeded, is treated as an invalid step:
    [execute] appends an [invalid] entry for index [i] and rejects with
    the [TypeError] that names step [i] -- not with the error of a
    property read on [null] or [undefined] -- and the run is the same as
    with a step object that lacks a capability in that place. *)
Theorem null_step_is_invalid
        (pre post : list (StepSlot State Issue W)) (slot : StepSlot State Issue W)
        (initialState : State) (w : W) (st : State) (r1 : Run State Issue W)
        (t : Z) (w2 : W) :
  slot = SlotNull \/ slot = SlotUndefined ->
  execute initialState pre w = Some (Returns st, r1) ->
  Date_now (world r1) = (t, w2) ->
  let i := Z.of_nat (List.length pre) in
  execute initialState (pre ++ slot :: post) w
  = Some (Throws (ErrorObj "TypeError" (invalidMessage i)),
          mkRun w2
            (auditHistory r1 ++
               [{| stepIndex := i; ts := t; phase := "invalid";
                   error := Some (invalidMessage i);
                   inputState := Some st; draftState := None; critiques := None;
                   finalState := None; iterations := None |}])
            (calls r1))
  /\ (forall s : Step State Issue W,
        draft s = None \/ critique s = None \/ revise s = None ->
        execute initialState (pre ++ SlotStep s :: post) w
        = execute initialState (pre ++ slot :: post) w).
Proof.
  intros Hslot E D i.
  assert (Hinv : draft (slotOrEmpty slot) = None
                 \/ critique (slotOrEmpty slot) = None
                 \/ revise (slotOrEmpty slot) = None).
  { destruct Hslot as [-> | ->]; now left. }
  destruct (invalid_slot_run pre slot post initialState w st r1 t w2 Hinv E D)
    as (Hrun & _).
  split; [exact Hrun|].
  intros s Hs. fold i in Hrun. rewrite Hrun.
  now destruct (invalid_slot_run pre (SlotStep s) post initialState w st r1 t w2 Hs E D).
Qed.
End EngineProperties.

(* ================================================================== *)
(** * Properties of the audit chain *)
(* ================================================================== *)

Section ChainProperties.
Context {State Issue : Type} `{Platform State}.

(** C5 -- [computeAuditRoot] is the hexadecimal rendering of the
    sequential fold that starts from the empty accumulator and replaces
    it, entry by entry, with the digest of the accumulator followed by the
    serialized canonical payload; the payload the code builds holds
    exactly [stepIndex], the timestamp, [phase], the count of critiques
    (0 when absent or not a sequence) and the three states with an
    explicit null when absent; on the empty sequence the accumulator is
    the empty byte string and the root the empty string. *)
Theorem computeAuditRoot_is_sequential_fold :
  (forall entries : list (AuditEntry State Issue),
      computeAuditRoot entries = Buffer_toHex (computeRoot_spec entries))
  /\ (forall entry : AuditEntry State Issue,
        payloadOf entry = canonicalPayload_spec entry)
  /\ computeRoot_spec (@nil (AuditEntry State Issue)) = []
  /\ computeAuditRoot (@nil (AuditEntry State Issue)) = EmptyString.
Proof.
  repeat split.
  - intros entries. unfold computeAuditRoot, computeRoot_spec.
    now rewrite chainLoop_fold.
  - apply payloadOf_canonical.
Qed.

(** C2 (as amended) -- Chain sensitivity. Two entry sequences that are
    identical except for one entry have the same digest when that entry's
    payload is unchanged (a change confined to [error], to [iterations],
    or to the content of [critiques] at the same count); they have
    different digests when the entry's payload serializes differently,
    provided SHA-256 does not collide on the byte strings it is fed along
    the two chains. *)
Theorem chain_sensitive_to_payload :
  (forall pre (a b : AuditEntry State Issue) post,
      payloadOf a = payloadOf b ->
      computeAuditRoot (pre ++ a :: post) = computeAuditRoot (pre ++ b :: post))
  /\
  (forall pre (a b : AuditEntry State Issue) post,
      JSON_stringify (payloadOf a) <> JSON_stringify (payloadOf b) ->
      (forall x y,
          In x (chainInputs [] (pre ++ a :: post)) ->
          In y (chainInputs [] (pre ++ b :: post)) ->
          sha256 x = sha256 y -> x = y) ->
      computeAuditRoot (pre ++ a :: post) <> computeAuditRoot (pre ++ b :: post)).
Proof.
  split.
  - intros pre a b post E. unfold computeAuditRoot.
    now rewrite (chainLoop_payload pre a b post E).
  - intros pre a b post Hser Hcf E. unfold computeAuditRoot in E.
    apply Buffer_toHex_inj in E. rewrite !chainLoop_app in E.
    rewrite !chainInputs_app in Hcf.
    set (running := chainLoop [] pre) in *.
    revert E. simpl. unfold digest. simpl.
    apply chain_stays_apart.
    + intros E. apply Hcf in E.
      * apply app_inv_head in E. apply Buffer_from_inj in E. contradiction.
      * apply in_or_app. right. simpl. now left.
      * apply in_or_app. right. simpl. now left.
    + intros x y Hx Hy. apply Hcf.
      * apply in_or_app. right. simpl. now right.
      * apply in_or_app. right. simpl. now right.
Qed.
End ChainProperties.

(* ================================================================== *)
(** * The scenarios, run *)
(* ================================================================== *)

Section ScenarioRuns.
Import Scenarios.

(** [toString("hex")] writes two lowercase digits per byte. *)
Example hex_run :
  Buffer_toHex [Byte.x00; Byte.x0f; Byte.xa5; Byte.xff] = "000fa5ff"
  /\ Buffer_fromHex "000fa5ff" = Some [Byte.x00; Byte.x0f; Byte.xa5; Byte.xff].
Proof. split; reflexivity. Qed.

(** README scenario: from [{value: 0}], the draft is 1, odd, and
    accepted as drafted; one entry. *)
Example readme_run :
  exists r,
    execute [("value", 0)] [SlotStep readmeStep] 100
    = Some (Returns [("value", 0); ("draft", 1)], r)
    /\ map phase (auditHistory r) = ["draft:accepted"]
    /\ reviseCalls 0 (calls r) = 0%nat.
Proof. eexists. split; [reflexivity|]. split; reflexivity. Qed.

(** test "Recursive loop caps at maxIterations and proceeds": after the
    draft, two revisions, then capped. *)
Example capping_run :
  execute [] [SlotStep cappingStep] 100 = Some (Returns [("v", 2)], cappingRun).
Proof. reflexivity. Qed.

(** test "Invalid step surfaces error and audits" *)
Example malformed_run :
  exists r,
    execute [] [SlotStep soundStep; SlotStep malformedStep] 100
    = Some (Throws (ErrorObj "TypeError"
                      "Step 1 is invalid. Expected functions: draft, critique, revise."),
            r)
    /\ map phase (auditHistory r) = ["draft:accepted"; "invalid"]
    /\ map stepIndex (auditHistory r) = [0; 1].
Proof. eexists. split; [reflexivity|]. split; reflexivity. Qed.

(** A budget below one is a budget of one: one critique, one revise, and
    the pause of 5 ms after it. *)
Example stubborn_run :
  exists r,
    execute [] [SlotStep stubbornStep] 100 = Some (Returns [("n", 1)], r)
    /\ map phase (auditHistory r) = ["revise:capped"]
    /\ map iterations (auditHistory r) = [Some 1]
    /\ map ts (auditHistory r) = [105]
    /\ critiqueCalls 0 (calls r) = 1%nat
    /\ reviseCalls 0 (calls r) = 1%nat.
Proof. eexists. split; [reflexivity|]. repeat split; reflexivity. Qed.

(** C1, the claim as stated, fails on the capping test of the suite: with
    [maxIterations = 2] the loop invokes revise twice, not at most
    [2 - 1] times. *)
Lemma revise_bound_counterexample :
  maxIterations cappingStep = Some 2
  /\ execute [] [SlotStep cappingStep] 100 = Some (Returns [("v", 2)], cappingRun)
  /\ critiqueCalls 0 (calls cappingRun) = 2%nat
  /\ reviseCalls 0 (calls cappingRun) = 2%nat
  /\ ~ (Z.of_nat (reviseCalls 0 (calls cappingRun)) <= 2 - 1).
Proof.
  split; [reflexivity|]. split; [reflexivity|]. split; [reflexivity|].
  split; [reflexivity|]. vm_compute. intros Hle. now apply Hle.
Qed.

(** C2, the claim as stated, fails: [entryA] and [entryB] differ in the
    field [iterations] alone, and whatever SHA-256 and [JSON.stringify]
    are, the two one-entry histories have the same root. *)
Lemma chain_sensitivity_counterexample :
  oneFieldApart [entryA] [entryB]
  /\ forall P : Platform Obj,
      @computeAuditRoot Obj string P [entryA] = @computeAuditRoot Obj string P [entryB].
Proof.
  split.
  - exists [], entryA, entryB, [], FIterations.
    split; [reflexivity|]. split; [reflexivity|]. split.
    + simpl. discriminate.
    + intros g Hg. destruct g; try reflexivity. now contradiction Hg.
  - intros P. reflexivity.
Qed.
End ScenarioRuns.

(* ================================================================== *)
(** * The properties at the scenarios *)
(* ================================================================== *)

Section ScenarioWitnesses.
Import Scenarios.

(** Chain sensitivity at [entryA], [entryB] (same payload) and [entryC]
    (another phase), with the stand-in platform. *)
Lemma chain_sensitive_to_payload_witness :
  computeAuditRoot ([entryA] ++ entryA :: [entryB])
  = computeAuditRoot ([entryA] ++ entryB :: [entryB])
  /\ computeAuditRoot ([entryA] ++ entryA :: [entryB])
     <> computeAuditRoot ([entryA] ++ entryC :: [entryB]).
Proof.
  split.
  - apply (proj1 chain_sensitive_to_payload [entryA] entryA entryB [entryB]).
    reflexivity.
  - apply (proj2 chain_sensitive_to_payload [entryA] entryA entryC [entryB]).
    + vm_compute. discriminate.
    + intros x y _ _ E. exact E.
Defined.

(** Cap-and-proceed at the capping test, followed by a second step, and
    at a step whose critique never clears. *)
Lemma cap_and_proceed_witness :
  runSteps 0 [SlotStep cappingStep; SlotStep passThroughStep] [] (mkRun 100 [] [])
  = runSteps 1 [SlotStep passThroughStep] [("v", 2)] cappingRun
  /\ exists finalSt r e,
      execute [] [SlotStep neverClearsStep] 100 = Some (Returns finalSt, r)
      /\ auditHistory r = [e]
      /\ phase e = "revise:capped"
      /\ iterations e = Some 2
      /\ finalState e = Some finalSt.
Proof.
  split.
  - refine (proj2 (proj2 (proj2
      (proj1 cap_and_proceed 0 cappingStep _ _ _ [SlotStep passThroughStep] []
         (mkRun 100 [] []) [("v", 0)] 100
         (mkLocals 2 [("v", 2)] (Arr ["not three"]) [])
         (mkRun 100 [] (calls cappingRun)) 100 101
         eq_refl eq_refl eq_refl eq_refl eq_refl _ eq_refl)))).
    vm_compute. discriminate.
  - apply (proj2 cap_and_proceed neverClearsStep _ _ _ [] 100
             eq_refl eq_refl eq_refl eq_refl).
    + intros st w. eexists; eexists; reflexivity.
    + intros st w. eexists; eexists. split; [reflexivity|discriminate].
    + intros st issues prev w. eexists; eexists; reflexivity.
Defined.

(** The clean critique on the last allowed iteration of [finalPassStep],
    and the silent critique of [silentStep] with its budget of one. *)
Lemma clean_critique_beats_cap_witness :
  (exists (e : AuditEntry Obj string) accepted,
      [acceptedEntry 0 100 [("v", 0)] [("v", 1)] [("v", 2)] 1] = [e]
      /\ Returns [("v", 2)] = Returns accepted
      /\ finalState e = Some accepted
      /\ iterations e = Some 1
      /\ phase e = "revise:accepted"
      /\ phase e <> "revise:capped")
  /\ (budget (SlotStep silentStep) = 1
      /\ stepBody 7 (SlotStep silentStep) [] (mkRun 100 [] [])
         = Some (Returns [],
                 mkRun 101
                   [{| stepIndex := 7; ts := 100; phase := "draft:accepted";
                       error := None;
                       inputState := Some []; draftState := Some [];
                       critiques := Some (Arr []); finalState := Some [];
                       iterations := Some 0 |}]
                   [EvDraft 7 [] (Returns []); EvCritique 7 [] (Returns Falsy)])).
Proof.
  split.
  - exact (proj1 clean_critique_beats_cap 0 (SlotStep finalPassStep) [("v", 0)]
             (mkRun 100 [] []) (Returns [("v", 2)])
             (mkRun 101
                [acceptedEntry 0 100 [("v", 0)] [("v", 1)] [("v", 2)] 1]
                [EvDraft 0 [("v", 0)] (Returns [("v", 1)]);
                 EvCritique 0 [("v", 1)] (Returns (Arr ["too small"]));
                 EvRevise 0 [("v", 1)] ["too small"] [("v", 0)] (Returns [("v", 2)]);
                 EvCritique 0 [("v", 2)] (Returns (Arr []))])
             _ _ (EvCritique 0 [("v", 2)] (Returns (Arr [])))
             eq_refl eq_refl eq_refl
             (or_intror (or_intror (or_intror (or_introl eq_refl)))) eq_refl).
  - refine (proj2 clean_critique_beats_cap 7 silentStep _ _ _ 0 [] (mkRun 100 [] [])
              [] 100 Falsy 100 100 101
              eq_refl eq_refl eq_refl eq_refl _ eq_refl eq_refl eq_refl eq_refl).
    lia.
Defined.

(** Pass-through at the test of that name. *)
Lemma pass_through_witness :
  exists out r' ents evs,
    stepBody 0 (SlotStep passThroughStep) [] (mkRun 100 [] []) = Some (out, r')
    /\ auditHistory r' = [] ++ ents
    /\ calls r' = [] ++ evs
    /\ Forall (fun ev => isRevise ev = false) evs
    /\ reviseCalls 0 evs = 0%nat
    /\ (forall ds w1,
          (Returns [("ok", 1)], 100) = (Returns ds, w1) ->
          out = Returns ds
          /\ exists e, ents = [e]
               /\ phase e = "draft:accepted"
               /\ iterations e = Some 0
               /\ finalState e = Some ds).
Proof.
  apply (pass_through 0 passThroughStep _ _ _ [] (mkRun 100 [] [])
           eq_refl eq_refl eq_refl).
  intros st w. eexists; eexists. split; [reflexivity|]. right; right; reflexivity.
Defined.

(** The invalid step of the test suite, in second place of three. *)
Lemma invalid_step_fails_run_witness :
  execute [] ([SlotStep soundStep] ++ SlotStep malformedStep :: [SlotStep soundStep]) 100
  = Some (Throws (ErrorObj "TypeError"
                    "Step 1 is invalid. Expected functions: draft, critique, revise."),
          mkRun 102
            ([acceptedEntry 0 100 [] [] [] 0]
             ++ [invalidEntry 1 101
                   "Step 1 is invalid. Expected functions: draft, critique, revise." []])
            [EvDraft 0 [] (Returns []); EvCritique 0 [] (Returns (Arr []))]).
Proof.
  exact (proj1 (invalid_step_fails_run [SlotStep soundStep] [SlotStep soundStep]
                  malformedStep [] 100 []
                  (mkRun 101 [acceptedEntry 0 100 [] [] [] 0]
                     [EvDraft 0 [] (Returns []); EvCritique 0 [] (Returns (Arr []))])
                  101 102 (or_introl eq_refl) eq_refl eq_refl)).
Defined.

(** A [null] in second place of three. *)
Lemma null_step_is_invalid_witness :
  execute [] ([SlotStep soundStep] ++ SlotNull :: [SlotStep soundStep]) 100
  = Some (Throws (ErrorObj "TypeError" (invalidMessage 1)),
          mkRun 102
            ([acceptedEntry 0 100 [] [] [] 0]
             ++ [invalidEntry 1 101 (invalidMessage 1) []])
            [EvDraft 0 [] (Returns []); EvCritique 0 [] (Returns (Arr []))]).
Proof.
  exact (proj1 (null_step_is_invalid [SlotStep soundStep] [SlotStep soundStep]
                  SlotNull [] 100 []
                  (mkRun 101 [acceptedEntry 0 100 [] [] [] 0]
                     [EvDraft 0 [] (Returns []); EvCritique 0 [] (Returns (Arr []))])
                  101 102 (or_introl eq_refl) eq_refl eq_refl)).
Defined.

(** The capped entry of the capping test and the revise behind it. *)
Lemma capped_final_state_is_unchecked_witness :
  exists before after cand issues prev cur,
    calls cappingRun
    = before
      ++ [EvCritique 0 cand (Returns (Arr issues));
          EvRevise 0 cand issues prev (Returns cur)]
      ++ after
    /\ issues <> []
    /\ finalState cappingEntry = Some cur
    /\ critiques cappingEntry = Some (Arr issues)
    /\ Forall (fun ev => eventStep ev <> 0) after.
Proof.
  exact (capped_final_state_is_unchecked [] [SlotStep cappingStep] 100
           (Returns [("v", 2)]) cappingRun cappingEntry
           eq_refl (or_introl eq_refl) eq_refl).
Defined.
End ScenarioWitnesses.

(* ================================================================== *)
(** * More of the flow engine: failures *)
(* ================================================================== *)

Section FailureFacts.
Context {State Issue W : Type} `{Host W}.

(** A loop that throws has written the entry of the capability that
    threw, and that capability's invocation is its last. *)
Lemma loop_failure i critiqueF reviseF maxIter delay stepStartState draftSt
      loc (r : Run State Issue W) out r' :
  LoopRun i critiqueF reviseF maxIter delay stepStartState draftSt loc r out r' ->
  forall e, out = Throws e ->
  exists evs0 t cand,
    (auditHistory r' = auditHistory r ++ [critiqueErrorEntry i t e stepStartState cand]
     /\ calls r' = calls r ++ evs0 ++ [EvCritique i cand (Throws e)])
    \/ (exists issues,
          issues <> []
          /\ auditHistory r'
             = auditHistory r ++ [reviseErrorEntry i t e stepStartState draftSt (Arr issues)]
          /\ calls r'
             = calls r ++ evs0
               ++ [EvCritique i cand (Returns (Arr issues));
                   EvRevise i cand issues stepStartState (Throws e)]).
Proof.
  induction 1 as [loc r G | loc r e0 w1 t w2 G C D | loc r v w1 t w2 G C N D
                  | loc r v w1 e0 w2 t w3 G C N R D
                  | loc r v w1 cur w2 out r' G C N R _ IH];
    intros e Hout; try discriminate.
  - injection Hout as ->. exists [], t, (loc_current loc). left. split; reflexivity.
  - injection Hout as ->. destruct (issues_inv _ N) as (issues & -> & Hne).
    exists [], t, (loc_current loc). right. exists issues. simpl.
    repeat split; auto.
  - destruct (IH e Hout) as (evs0 & t & cand & Hcase). simpl in Hcase.
    destruct (issues_inv _ N) as (issues & -> & Hne). simpl in Hcase.
    exists (EvCritique i (loc_current loc) (Returns (Arr issues))
              :: EvRevise i (loc_current loc) issues stepStartState (Returns cur)
              :: evs0), t, cand.
    destruct Hcase as [[Hh Hc]|(iss & Hn & Hh & Hc)].
    + left. split; [exact Hh|]. rewrite Hc, <- app_assoc. reflexivity.
    + right. exists iss. split; [exact Hn|]. split; [exact Hh|].
      rewrite Hc, <- app_assoc. reflexivity.
Qed.

(** What a rejecting step body leaves behind, case by case. *)
Lemma rejected_step
        (i : Z) (slot : StepSlot State Issue W) (state : State)
        (r : Run State Issue W) (e : Exn) (r' : Run State Issue W) :
  stepBody i slot state r = Some (Throws e, r') ->
  exists en evs,
    auditHistory r' = auditHistory r ++ [en]
    /\ calls r' = calls r ++ evs
    /\ stepIndex en = i
    /\ error en = Some (errorText e)
    /\ inputState en = Some state
    /\ finalState en = None
    /\ iterations en = None
    /\ ((phase en = "invalid" /\ evs = []
         /\ e = ErrorObj "TypeError" (invalidMessage i)
         /\ draftState en = None /\ critiques en = None)
        \/ (phase en = "draft:error" /\ evs = [EvDraft i state (Throws e)]
            /\ draftState en = None /\ critiques en = None)
        \/ (exists evs0 cand,
               phase en = "critique:error"
               /\ evs = evs0 ++ [EvCritique i cand (Throws e)]
               /\ draftState en = Some cand /\ critiques en = None)
        \/ (exists ds evs0 cand issues,
               phase en = "revise:error"
               /\ evs = EvDraft i state (Returns ds) :: evs0
                        ++ [EvCritique i cand (Returns (Arr issues));
                            EvRevise i cand issues state (Throws e)]
               /\ issues <> []
               /\ draftState en = Some ds /\ critiques en = Some (Arr issues))).
Proof.
  intros E. apply stepBody_sound in E.
  inversion E as [r0 t w Hinv D | r0 s d c rv e0 w1 t w2 Hs Ed Ec Er Dr D
                  | r0 s d c rv ds w1 e0 r0' Hs Ed Ec Er Dr L | |]; subst.
  - eexists; exists []. simpl. rewrite app_nil_r.
    repeat (split; [reflexivity|]). left. repeat split; reflexivity.
  - eexists; eexists. simpl.
    repeat (split; [reflexivity|]). right; left. repeat split; reflexivity.
  - destruct (loop_failure _ _ _ _ _ _ _ _ _ _ _ L e eq_refl)
      as (evs0 & t & cand & [[Hh Hc]|(issues & Hne & Hh & Hc)]); simpl in Hh, Hc.
    + eexists; eexists. split; [exact Hh|].
      split; [rewrite Hc, <- app_assoc; reflexivity|]. simpl.
      repeat (split; [reflexivity|]). right; right; left.
      exists (EvDraft i state (Returns ds) :: evs0), cand. repeat split; reflexivity.
    + eexists; eexists. split; [exact Hh|].
      split; [rewrite Hc, <- app_assoc; reflexivity|]. simpl.
      repeat (split; [reflexivity|]). right; right; right.
      exists ds, evs0, cand, issues. repeat split; auto.
Qed.

(** X1 -- Failure is recorded once, with its cause: when the body of a step
    rejects with [e], it has appended exactly one entry, for that step,
    which carries the step's input state and the text of [e] and neither
    [finalState] nor [iterations]. Either the step is invalid, nothing was
    invoked and [e] is the [TypeError] for that index; or the draft threw
    [e]; or the last invocation is a critique that threw [e], and
    [draftState] is the candidate it was given; or the last invocation is a
    revise that threw [e], [draftState] is what the draft returned and
    [critiques] are the issues that revise was given. *)
Theorem failure_is_recorded_once
        (i : Z) (slot : StepSlot State Issue W) (state : State)
        (r : Run State Issue W) (e : Exn) (r' : Run State Issue W) :
  stepBody i slot state r = Some (Throws e, r') ->
  exists en evs,
    auditHistory r' = auditHistory r ++ [en]
    /\ calls r' = calls r ++ evs
    /\ stepIndex en = i
    /\ error en = Some (errorText e)
    /\ inputState en = Some state
    /\ finalState en = None
    /\ iterations en = None
    /\ ((phase en = "invalid" /\ evs = []
         /\ e = ErrorObj "TypeError" (invalidMessage i)
         /\ draftState en = None /\ critiques en = None)
        \/ (phase en = "draft:error" /\ evs = [EvDraft i state (Throws e)]
            /\ draftState en = None /\ critiques en = None)
        \/ (exists evs0 cand,
               phase en = "critique:error"
               /\ evs = evs0 ++ [EvCritique i cand (Throws e)]
               /\ draftState en = Some cand /\ critiques en = None)
        \/ (exists ds evs0 cand issues,
               phase en = "revise:error"
               /\ evs = EvDraft i state (Returns ds) :: evs0
                        ++ [EvCritique i cand (Returns (Arr issues));
                            EvRevise i cand issues state (Throws e)]
               /\ issues <> []
               /\ draftState en = Some ds /\ critiques en = Some (Arr issues))).
Proof.
  intros E.
  destruct (rejected_step i slot state r e r' E)
    as (en & evs & Hh & Hc & Hi & Herr & Hin & Hfin & Hit & Hcase).
  exists en, evs. repeat (split; [assumption|]). exact Hcase.
Qed.
End FailureFacts.

(* ================================================================== *)
(** * More of the flow engine: the shape of a history *)
(* ================================================================== *)

Section HistoryShape.
Context {State Issue W : Type} `{Host W}.

Lemma indicesFrom_cons (i : Z) (n : nat) :
  indicesFrom i (S n) = i :: indicesFrom (i + 1) n.
Proof.
  unfold indicesFrom. cbn [seq map]. f_equal; [lia|].
  rewrite <- seq_shift, map_map. apply map_ext. intros k. lia.
Qed.

Lemma threads_app (s mid s' : State) (ents1 ents2 : list (AuditEntry State Issue)) :
  threads s ents1 mid -> threads mid ents2 s' -> threads s (ents1 ++ ents2) s'.
Proof.
  revert s. induction ents1 as [|e ents1 IH]; simpl; intros s H1 H2.
  - now subst.
  - destruct H1 as (Hin & m & Hfin & Hrest). split; [exact Hin|].
    exists m. split; [exact Hfin|]. now apply IH.
Qed.

(** A step that completes normally leaves one settled entry, from its
    input state to the state it hands on. *)
Lemma settled_step i slot state (r : Run State Issue W) st r' :
  stepBody i slot state r = Some (Returns st, r') ->
  exists en,
    auditHistory r' = auditHistory r ++ [en]
    /\ stepIndex en = i
    /\ settledPhase (phase en)
    /\ inputState en = Some state
    /\ finalState en = Some st.
Proof.
  intros E. apply stepBody_sound, step_summary in E.
  destruct E as (ents & evs & Hh & _ & _ & _ & _ & _ & Hout).
  destruct Hout as [(t & ds & iters & v & evs0 & -> & _)
                   |(t & ds & issues & cand & evs0 & -> & _)].
  - eexists. split; [exact Hh|]. simpl. repeat split; auto.
    unfold settledPhase. destruct (iters =? 0); auto.
  - eexists. split; [exact Hh|]. simpl. repeat split; auto.
    unfold settledPhase. auto.
Qed.

(** The history of a run from index [i]: settled entries, one per step and
    in step order, threading the state; on rejection, one failure entry
    after them. *)
Lemma run_shape :
  forall steps i state (r : Run State Issue W) out r',
    runSteps i steps state r = Some (out, r') ->
    exists ents,
      auditHistory r' = auditHistory r ++ ents
      /\ match out with
         | Returns s' =>
             threads state ents s'
             /\ map stepIndex ents = indicesFrom i (List.length steps)
             /\ Forall (fun en => settledPhase (phase en)) ents
         | Throws e =>
             exists good en s_k,
               ents = good ++ [en]
               /\ threads state good s_k
               /\ map stepIndex good = indicesFrom i (List.length good)
               /\ Forall (fun en => settledPhase (phase en)) good
               /\ (List.length good < List.length steps)%nat
               /\ stepIndex en = i + Z.of_nat (List.length good)
               /\ failurePhase (phase en)
               /\ error en = Some (errorText e)
               /\ inputState en = Some s_k
               /\ finalState en = None
         end.
Proof.
  induction steps as [|slot rest IH]; intros i state r out r' E.
  - simpl in E. inversion E; subst. exists []. rewrite app_nil_r.
    split; [reflexivity|]. simpl. repeat split; auto.
  - cbn [runSteps] in E. unfold bind in E.
    destruct (stepBody i slot state r) as [[[st|ex] r1]|] eqn:B; [| |discriminate].
    + destruct (settled_step _ _ _ _ _ _ B) as (en & Hh1 & Hi & Hp & Hin & Hfin).
      apply IH in E. destruct E as (ents & Hh & Hout).
      exists (en :: ents).
      split; [rewrite Hh, Hh1, <- app_assoc; reflexivity|].
      destruct out as [s'|e].
      * destruct Hout as (Hth & Hidx & Hall).
        cbn [List.length]. rewrite indicesFrom_cons. simpl.
        repeat split; auto.
        -- exists st. split; auto.
        -- now rewrite Hi, Hidx.
      * destruct Hout as (good & en' & s_k & -> & Hth & Hidx & Hall & Hlen & Hi'
                          & Hp' & Herr & Hin' & Hfin').
        exists (en :: good), en', s_k. cbn [List.length].
        rewrite indicesFrom_cons. simpl.
        repeat split; auto; try lia.
        -- exists st. split; auto.
        -- now rewrite Hi, Hidx.
    + inversion E; subst.
      destruct (rejected_step _ _ _ _ _ _ B)
        as (en & evs & Hh & _ & Hi & Herr & Hin & Hfin & _ & Hcase).
      exists [en]. split; [exact Hh|].
      exists [], en, state. simpl.
      repeat split; auto; try lia.
      unfold failurePhase.
      destruct Hcase as [(Hp & _)|[(Hp & _)|[(? & ? & Hp & _)|(? & ? & ? & ? & Hp & _)]]];
        rewrite Hp; auto.
Qed.
End HistoryShape.

Section HistoryProperties.
Context {State Issue W : Type} `{Host W}.

(** X2 -- A run that resolves has written exactly one entry per step, in
    step order ([stepIndex] 0, 1, ...), each [draft:accepted],
    [revise:accepted] or [revise:capped]; the first entry's [inputState] is
    the initial state, each later entry's [inputState] is the [finalState]
    of the entry before it, and the run resolves to the [finalState] of the
    last (to the initial state when there is no step). *)
Theorem resolved_run_history
        (initialState : State) (steps : list (StepSlot State Issue W)) (w : W)
        (final : State) (r : Run State Issue W) :
  execute initialState steps w = Some (Returns final, r) ->
  List.length (auditHistory r) = List.length steps
  /\ map stepIndex (auditHistory r) = indicesFrom 0 (List.length steps)
  /\ Forall (fun en => settledPhase (phase en)) (auditHistory r)
  /\ threads initialState (auditHistory r) final.
Proof.
  unfold execute. intros E. apply run_shape in E.
  destruct E as (ents & Hh & Hth & Hidx & Hall). simpl in Hh. rewrite Hh.
  split; [|repeat split; assumption].
  apply (f_equal (@List.length Z)) in Hidx.
  unfold indicesFrom in Hidx. now rewrite !length_map, length_seq in Hidx.
Qed.

(** X3 -- A run that rejects with [e] has written one settled entry for
    each step before the failing one, in step order and threading the
    state from the initial state, and then exactly one failure entry, the
    last of the history: it is for a step of the list, carries the text of
    [e] and, as [inputState], the state the earlier steps handed on, and
    has no [finalState]. *)
Theorem rejected_run_history
        (initialState : State) (steps : list (StepSlot State Issue W)) (w : W)
        (e : Exn) (r : Run State Issue W) :
  execute initialState steps w = Some (Throws e, r) ->
  exists good en reached,
    auditHistory r = good ++ [en]
    /\ map stepIndex good = indicesFrom 0 (List.length good)
    /\ Forall (fun en => settledPhase (phase en)) good
    /\ threads initialState good reached
    /\ stepIndex en = Z.of_nat (List.length good)
    /\ (List.length good < List.length steps)%nat
    /\ failurePhase (phase en)
    /\ error en = Some (errorText e)
    /\ inputState en = Some reached
    /\ finalState en = None.
Proof.
  unfold execute. intros E. apply run_shape in E.
  destruct E as (ents & Hh & good & en & s_k & -> & Hth & Hidx & Hall & Hlen & Hi
                 & Hp & Herr & Hin & Hfin).
  simpl in Hh. exists good, en, s_k. rewrite Hh.
  repeat split; auto.
Qed.

(** X4 -- The history is append-only and grows by at most one entry per
    step: continuing from any run state, the steps complete, what was in
    the history and in the invocations before is still there, unchanged
    and in front, and the entries added are no more than the steps run and
    are all for indices of those steps. *)
Theorem history_is_append_only
        (i : Z) (steps : list (StepSlot State Issue W)) (state : State)
        (r : Run State Issue W) :
  exists out r' ents evs,
    runSteps i steps state r = Some (out, r')
    /\ auditHistory r' = auditHistory r ++ ents
    /\ calls r' = calls r ++ evs
    /\ (List.length ents <= List.length steps)%nat
    /\ Forall (fun en => i <= stepIndex en < i + Z.of_nat (List.length steps)) ents.
Proof.
  destruct (runSteps_total steps i state r) as (out & r' & E).
  pose proof (run_shape _ _ _ _ _ _ E) as (ents & Hh & Hout).
  pose proof (run_summary _ _ _ _ _ _ E) as (ents' & evs & Hh' & Hc & Hi & _).
  assert (ents' = ents) as ->.
  { rewrite Hh in Hh'. now apply app_inv_head in Hh'. }
  exists out, r', ents, evs. repeat (split; [assumption|]).
  split; [|exact Hi].
  destruct out as [s'|e].
  - destruct Hout as (_ & Hidx & _).
    apply (f_equal (@List.length Z)) in Hidx.
    unfold indicesFrom in Hidx. rewrite !length_map, length_seq in Hidx. lia.
  - destruct Hout as (good & en & s_k & -> & _ & _ & _ & Hlen & _).
    rewrite length_app. simpl. lia.
Qed.
End HistoryProperties.

(* ================================================================== *)
(** * More of the flow engine: the order of invocations *)
(* ================================================================== *)

Section Protocol.
Context {State Issue W : Type} `{Host W}.
Variable initialState : State.

Lemma lastEvent_app (prev : option (Event State Issue)) evs1 evs2 :
  lastEvent prev (evs1 ++ evs2) = lastEvent (lastEvent prev evs1) evs2.
Proof. unfold lastEvent. apply fold_left_app. Qed.

Lemma protocol_app evs1 :
  forall (prev : option (Event State Issue)) evs2,
    protocol initialState prev evs1 ->
    protocol initialState (lastEvent prev evs1) evs2 ->
    protocol initialState prev (evs1 ++ evs2).
Proof.
  induction evs1 as [|ev evs1 IH]; intros prev evs2 H1 H2; simpl in *; [exact H2|].
  destruct H1 as [Hj H1]. split; [exact Hj|]. now apply IH.
Qed.

(** The invocations of a loop follow one another as the protocol has it,
    when the loop starts on what the invocation before it returned. *)
Lemma loop_protocol i critiqueF reviseF maxIter delay stepStartState draftSt
      loc (r : Run State Issue W) out r' :
  LoopRun i critiqueF reviseF maxIter delay stepStartState draftSt loc r out r' ->
  forall p,
    (forall res, justified initialState (Some p) (EvCritique i (loc_current loc) res)) ->
    exists evs, calls r' = calls r ++ evs /\ protocol initialState (Some p) evs.
Proof.
  induction 1 as [loc r G | loc r e0 w1 t w2 G C D | loc r v w1 t w2 G C N D
                  | loc r v w1 e0 w2 t w3 G C N R D
                  | loc r v w1 cur w2 out r' G C N R _ IH];
    intros p Hp.
  - exists []. now rewrite app_nil_r.
  - eexists. split; [reflexivity|]. cbn [protocol]. split; [apply Hp|exact I].
  - eexists. split; [reflexivity|]. cbn [protocol]. split; [apply Hp|exact I].
  - destruct (issues_inv _ N) as (issues & -> & Hne).
    eexists. split; [reflexivity|]. cbn [protocol]. split; [apply Hp|].
    split; [|exact I]. simpl. repeat split; auto.
  - destruct (issues_inv _ N) as (issues & -> & Hne). simpl in IH.
    destruct (IH (EvRevise i (loc_current loc) issues stepStartState (Returns cur)))
      as (evs & Hc & Hpr).
    { intros res. simpl. split; reflexivity. }
    eexists. split; [rewrite Hc, <- app_assoc; reflexivity|].
    cbn [protocol app]. split; [apply Hp|]. split; [|exact Hpr].
    simpl. repeat split; auto.
Qed.

(** The invocations of a step body, given a state duly handed over; when
    the body completes normally its last invocation hands the new state
    over to the next step. *)
Lemma step_protocol i slot state (r : Run State Issue W) out r' prev :
  stepBody i slot state r = Some (out, r') ->
  handsOver initialState prev i state ->
  exists evs,
    calls r' = calls r ++ evs
    /\ protocol initialState prev evs
    /\ (forall st, out = Returns st ->
          handsOver initialState (lastEvent prev evs) (i + 1) st).
Proof.
  intros E Hho. pose proof (stepBody_sound _ _ _ _ _ _ E) as SR.
  pose proof (step_summary _ _ _ _ _ _ SR) as (ents & evs & _ & Hc & _ & _ & _ & _ & Hout).
  exists evs. split; [exact Hc|]. split.
  - inversion SR as [r0 t w Hinv D | r0 s d c rv e0 w1 t w2 Hs Ed Ec Er Dr D
                     | r0 s d c rv ds w1 e0 r0' Hs Ed Ec Er Dr L
                     | r0 s d c rv ds w1 loc r0' Hs Ed Ec Er Dr L A
                     | r0 s d c rv ds w1 loc r0' t w2 Hs Ed Ec Er Dr L A D]; subst.
    + simpl in Hc. rewrite <- (app_nil_r (calls r)) in Hc at 1.
      apply app_inv_head in Hc. now subst.
    + simpl in Hc. apply app_inv_head in Hc. subst. simpl. split; [exact Hho|exact I].
    + destruct (loop_protocol _ _ _ _ _ _ _ _ _ _ _ L (EvDraft i state (Returns ds)))
        as (evsL & HcL & HpL).
      { intros res. simpl. split; reflexivity. }
      simpl in HcL. rewrite HcL, <- app_assoc in Hc. apply app_inv_head in Hc.
      subst. simpl. split; [exact Hho|exact HpL].
    + destruct (loop_protocol _ _ _ _ _ _ _ _ _ _ _ L (EvDraft i state (Returns ds)))
        as (evsL & HcL & HpL).
      { intros res. simpl. split; reflexivity. }
      simpl in HcL. rewrite HcL, <- app_assoc in Hc. apply app_inv_head in Hc.
      subst. simpl. split; [exact Hho|exact HpL].
    + destruct (loop_protocol _ _ _ _ _ _ _ _ _ _ _ L (EvDraft i state (Returns ds)))
        as (evsL & HcL & HpL).
      { intros res. simpl. split; reflexivity. }
      simpl in Hc, HcL. rewrite HcL, <- app_assoc in Hc. apply app_inv_head in Hc.
      subst. simpl. split; [exact Hho|exact HpL].
  - intros st ->.
    destruct Hout as [(t & ds & iters & v & evs0 & _ & _ & _ & _ & -> & Hv & _)
                     |(t & ds & issues & cand & evs0 & _ & _ & _ & _ & -> & _)].
    + rewrite lastEvent_app. simpl. repeat split; auto. lia.
    + rewrite lastEvent_app. simpl. split; [lia|reflexivity].
Qed.

Lemma run_protocol :
  forall steps i state (r : Run State Issue W) out r' prev,
    runSteps i steps state r = Some (out, r') ->
    handsOver initialState prev i state ->
    exists evs, calls r' = calls r ++ evs /\ protocol initialState prev evs.
Proof.
  induction steps as [|slot rest IH]; intros i state r out r' prev E Hho.
  - simpl in E. inversion E; subst. exists []. now rewrite app_nil_r.
  - cbn [runSteps] in E. unfold bind in E.
    destruct (stepBody i slot state r) as [[[st|ex] r1]|] eqn:B; [| |discriminate].
    + destruct (step_protocol _ _ _ _ _ _ _ B Hho) as (evs1 & Hc1 & Hp1 & Hnext).
      destruct (IH _ _ _ _ _ _ E (Hnext st eq_refl)) as (evs2 & Hc2 & Hp2).
      exists (evs1 ++ evs2). split; [rewrite Hc2, Hc1, app_assoc; reflexivity|].
      now apply protocol_app.
    + inversion E; subst.
      destruct (step_protocol _ _ _ _ _ _ _ B Hho) as (evs1 & Hc1 & Hp1 & _).
      now exists evs1.
Qed.
End Protocol.

Section ProtocolProperty.
Context {State Issue W : Type} `{Host W}.

(** X5 -- The order of invocations: in every run, each invocation is
    called for by the one directly before it. A draft gets the initial
    state when it is the first invocation, and otherwise the candidate
    that an earlier step's last critique found clean or the result of an
    earlier step's last revise; a critique gets what the draft or the
    revise of its own step has just returned; a revise gets the candidate
    just critiqued together with the non-empty issues that critique
    returned. *)
Theorem invocations_follow_protocol
        (initialState : State) (steps : list (StepSlot State Issue W)) (w : W) :
  exists out r,
    execute initialState steps w = Some (out, r)
    /\ protocol initialState None (calls r).
Proof.
  unfold execute.
  destruct (runSteps_total steps 0 initialState (mkRun w [] [])) as (out & r & E).
  exists out, r. split; [exact E|].
  destruct (run_protocol initialState steps 0 initialState _ out r None E)
    as (evs & Hc & Hp); [reflexivity|].
  simpl in Hc. now rewrite Hc.
Qed.
End ProtocolProperty.

(* ================================================================== *)
(** * More of the flow engine: the state a step starts from *)
(* ================================================================== *)

Section StepInput.
Context {State Issue W : Type} `{Host W}.

Lemma loop_inputs i critiqueF reviseF maxIter delay stepStartState draftSt
      loc (r : Run State Issue W) out r' :
  LoopRun i critiqueF reviseF maxIter delay stepStartState draftSt loc r out r' ->
  exists ents evs,
    auditHistory r' = auditHistory r ++ ents
    /\ calls r' = calls r ++ evs
    /\ Forall (fun en => inputState en = Some stepStartState) ents
    /\ Forall (startsFrom stepStartState) evs.
Proof.
  induction 1 as [loc r G | loc r e0 w1 t w2 G C D | loc r v w1 t w2 G C N D
                  | loc r v w1 e0 w2 t w3 G C N R D
                  | loc r v w1 cur w2 out r' G C N R _ IH].
  - exists [], []. rewrite !app_nil_r. repeat split; constructor.
  - eexists; eexists. split; [reflexivity|]. split; [reflexivity|].
    split; repeat constructor.
  - eexists; eexists. split; [reflexivity|]. split; [reflexivity|].
    split; repeat constructor.
  - eexists; eexists. split; [reflexivity|]. split; [reflexivity|].
    split; repeat constructor.
  - destruct IH as (ents & evs & Hh & Hc & He & Hv). simpl in Hh, Hc.
    exists ents. eexists. split; [exact Hh|].
    split; [rewrite Hc, <- app_assoc; reflexivity|].
    split; [exact He|]. simpl. repeat constructor. exact Hv.
Qed.

Lemma step_inputs i slot state (r : Run State Issue W) out r' :
  stepBody i slot state r = Some (out, r') ->
  exists ents evs,
    auditHistory r' = auditHistory r ++ ents
    /\ calls r' = calls r ++ evs
    /\ Forall (fun en => stepIndex en = i /\ inputState en = Some state) ents
    /\ Forall (fun ev => eventStep ev = i /\ startsFrom state ev) evs.
Proof.
  intros E. pose proof (stepBody_sound _ _ _ _ _ _ E) as SR.
  pose proof (step_summary _ _ _ _ _ _ SR)
    as (ents & evs & Hh & Hc & Hi & He & _).
  exists ents, evs. split; [exact Hh|]. split; [exact Hc|].
  assert (Hin : Forall (fun en => inputState en = Some state) ents
                /\ Forall (startsFrom state) evs).
  { inversion SR as [r0 t w Hinv D | r0 s d c rv e0 w1 t w2 Hs Ed Ec Er Dr D
                     | r0 s d c rv ds w1 e0 r0' Hs Ed Ec Er Dr L
                     | r0 s d c rv ds w1 loc r0' Hs Ed Ec Er Dr L A
                     | r0 s d c rv ds w1 loc r0' t w2 Hs Ed Ec Er Dr L A D]; subst;
      simpl in Hh, Hc.
    - apply app_inv_head in Hh. rewrite <- (app_nil_r (calls r)) in Hc at 1.
      apply app_inv_head in Hc. subst. split; repeat constructor.
    - apply app_inv_head in Hh. apply app_inv_head in Hc. subst.
      split; repeat constructor.
    - destruct (loop_inputs _ _ _ _ _ _ _ _ _ _ _ L) as (ents' & evs' & Hh' & Hc' & He' & Hv').
      simpl in Hh', Hc'. rewrite Hh' in Hh. apply app_inv_head in Hh.
      rewrite Hc', <- app_assoc in Hc. apply app_inv_head in Hc. subst.
      split; [exact He'|]. simpl. constructor; [reflexivity|exact Hv'].
    - destruct (loop_inputs _ _ _ _ _ _ _ _ _ _ _ L) as (ents' & evs' & Hh' & Hc' & He' & Hv').
      simpl in Hh', Hc'. rewrite Hh' in Hh. apply app_inv_head in Hh.
      rewrite Hc', <- app_assoc in Hc. apply app_inv_head in Hc. subst.
      split; [exact He'|]. simpl. constructor; [reflexivity|exact Hv'].
    - destruct (loop_inputs _ _ _ _ _ _ _ _ _ _ _ L) as (ents' & evs' & Hh' & Hc' & He' & Hv').
      simpl in Hh', Hc'. rewrite Hh', <- app_assoc in Hh. apply app_inv_head in Hh.
      rewrite Hc', <- app_assoc in Hc. apply app_inv_head in Hc. subst.
      split.
      + apply Forall_app. split; [exact He'|]. repeat constructor.
      + simpl. constructor; [reflexivity|exact Hv']. }
  destruct Hin as [Hin1 Hin2]. split.
  - rewrite Forall_forall in *. intros en Hen. split; auto.
  - rewrite Forall_forall in *. intros ev Hev. split; auto.
Qed.

Lemma run_inputs :
  forall steps i state (r : Run State Issue W) out r',
    runSteps i steps state r = Some (out, r') ->
    exists (input : Z -> State) ents evs,
      auditHistory r' = auditHistory r ++ ents
      /\ calls r' = calls r ++ evs
      /\ input i = state
      /\ Forall (fun en => i <= stepIndex en
                           /\ inputState en = Some (input (stepIndex en))) ents
      /\ Forall (fun ev => i <= eventStep ev
                           /\ startsFrom (input (eventStep ev)) ev) evs.
Proof.
  induction steps as [|slot rest IH]; intros i state r out r' E.
  - simpl in E. inversion E; subst. exists (fun _ => state), [], [].
    rewrite !app_nil_r. repeat split; constructor.
  - cbn [runSteps] in E. unfold bind in E.
    destruct (stepBody i slot state r) as [[[st|ex] r1]|] eqn:B; [| |discriminate].
    + destruct (step_inputs _ _ _ _ _ _ B) as (ents1 & evs1 & Hh1 & Hc1 & He1 & Hv1).
      destruct (IH _ _ _ _ _ E) as (input & ents2 & evs2 & Hh2 & Hc2 & _ & He2 & Hv2).
      exists (fun k => if k =? i then state else input k), (ents1 ++ ents2), (evs1 ++ evs2).
      split; [rewrite Hh2, Hh1, app_assoc; reflexivity|].
      split; [rewrite Hc2, Hc1, app_assoc; reflexivity|].
      split; [now rewrite Z.eqb_refl|].
      split; apply Forall_app; split.
      * eapply Forall_impl; [|exact He1]. simpl. intros en [-> Hin].
        rewrite Z.eqb_refl. split; [lia|exact Hin].
      * eapply Forall_impl; [|exact He2]. simpl. intros en [Hle Hin].
        rewrite (proj2 (Z.eqb_neq _ _)) by lia. split; [lia|exact Hin].
      * eapply Forall_impl; [|exact Hv1]. simpl. intros ev [-> Hin].
        rewrite Z.eqb_refl. split; [lia|exact Hin].
      * eapply Forall_impl; [|exact Hv2]. simpl. intros ev [Hle Hin].
        rewrite (proj2 (Z.eqb_neq _ _)) by lia. split; [lia|exact Hin].
    + inversion E; subst.
      destruct (step_inputs _ _ _ _ _ _ B) as (ents1 & evs1 & Hh1 & Hc1 & He1 & Hv1).
      exists (fun _ => state), ents1, evs1.
      split; [exact Hh1|]. split; [exact Hc1|]. split; [reflexivity|].
      split.
      * eapply Forall_impl; [|exact He1]. simpl. intros en [-> Hin].
        split; [lia|exact Hin].
      * eapply Forall_impl; [|exact Hv1]. simpl. intros ev [-> Hin].
        split; [lia|exact Hin].
Qed.

(** X12 -- One input state per step: in every run each step that was
    reached has a single state it started from, the initial state for
    step 0; the step's draft was called on that state, every revise of
    the step got it as third argument, and every audit entry of the step
    records it as [inputState]. *)
Theorem step_input_is_shared
        (initialState : State) (steps : list (StepSlot State Issue W)) (w : W) :
  exists out r (input : Z -> State),
    execute initialState steps w = Some (out, r)
    /\ input 0 = initialState
    /\ (forall en, In en (auditHistory r) ->
          inputState en = Some (input (stepIndex en)))
    /\ (forall i arg res, In (EvDraft i arg res) (calls r) -> arg = input i)
    /\ (forall i cand issues prev res,
          In (EvRevise i cand issues prev res) (calls r) -> prev = input i).
Proof.
  unfold execute.
  destruct (runSteps_total steps 0 initialState (mkRun w [] [])) as (out & r & E).
  destruct (run_inputs _ _ _ _ _ _ E) as (input & ents & evs & Hh & Hc & H0 & He & Hv).
  simpl in Hh, Hc. exists out, r, input. rewrite Hh, Hc.
  split; [exact E|]. split; [exact H0|].
  rewrite Forall_forall in He, Hv. split; [|split].
  - intros en Hen. now destruct (He en Hen).
  - intros i arg res Hin. now destruct (Hv _ Hin).
  - intros i cand issues prev res Hin. now destruct (Hv _ Hin).
Qed.
End StepInput.

(* ================================================================== *)
(** * More of the flow engine: the optional controls *)
(* ================================================================== *)

Section Controls.
Context {State Issue W : Type} `{Host W}.

(** The loop reads [maxIterations] through [Math.max(1, .)] alone and
    [delayMs] through the test [delayMs > 0] and the pause it guards. *)
Lemma loop_controls i critiqueF reviseF m1 m2 d1 d2 stepStartState draftSt :
  Z.max 1 m1 = Z.max 1 m2 ->
  (d1 >? 0) = (d2 >? 0) ->
  ((d2 >? 0) = true -> d1 = d2) ->
  forall fuel loc (r : Run State Issue W),
    critiqueReviseLoop fuel i critiqueF reviseF m1 d1 stepStartState draftSt loc r
    = critiqueReviseLoop fuel i critiqueF reviseF m2 d2 stepStartState draftSt loc r.
Proof.
  intros Hm Hd Hd'.
  induction fuel as [|fuel IH]; intros loc r; simpl; rewrite Hm;
    destruct (loc_iterations loc <? Z.max 1 m2); try reflexivity.
  unfold_monad.
  destruct (critiqueF (loc_current loc) (world r)) as [[v|e] w1]; simpl;
    [|destruct (Date_now w1); reflexivity].
  destruct (negb (Array_isArray (orEmptyArray v))
            || (Array_length (orEmptyArray v) =? 0)); simpl;
    [destruct (Date_now w1); reflexivity|].
  destruct (reviseF _ _ _ w1) as [[cur|e] w2]; simpl;
    [|destruct (Date_now w2); reflexivity].
  rewrite Hd. destruct (d2 >? 0) eqn:Hpos.
  - simpl. rewrite IH. now rewrite (Hd' eq_refl).
  - apply IH.
Qed.

Lemma stepBody_resolved i slot state (r : Run State Issue W) :
  stepBody i (resolveSlot slot) state r = stepBody i slot state r.
Proof.
  destruct slot as [| |s]; try reflexivity.
  unfold stepBody. simpl.
  destruct (draft s) as [d|]; [|reflexivity].
  destruct (critique s) as [c|]; [|reflexivity].
  destruct (revise s) as [rv|]; [|reflexivity].
  set (m := defaultTo 3 (maxIterations s)).
  set (dl := defaultTo 0 (delayMs s)).
  replace (Z.max 1 (Z.max 1 m)) with (Z.max 1 m) by lia.
  unfold bind, tryCatch, callDraft.
  destruct (d state (world r)) as [[ds|e] w1];
    [|unfold dateNow, push, throw; simpl; destruct (Date_now w1); reflexivity].
  rewrite (loop_controls i c rv (Z.max 1 m) m (Z.max 0 dl) dl state ds).
  - destruct (critiqueReviseLoop _ _ _ _ _ _ _ _ _ _) as [[[loc|e] r1]|];
      try reflexivity.
    unfold capCheck. unfold_monad. simpl. fold m.
    replace (Z.max 1 (Z.max 1 m)) with (Z.max 1 m) by lia. reflexivity.
  - lia.
  - destruct (Z.gtb_spec dl 0), (Z.gtb_spec (Z.max 0 dl) 0); try reflexivity; lia.
  - intros Hpos. apply Z.gtb_lt in Hpos. lia.
Qed.

(** X6 -- The optional controls can be resolved once, before the run:
    replacing each step's [maxIterations] by [Math.max(1, maxIterations)]
    (3 when left out, so anything below 1 counts as 1) and its [delayMs]
    by the delay itself when positive and by 0 otherwise (also when left
    out) leaves the whole run unchanged: the same outcome, history,
    invocations and world. *)
Theorem controls_resolved_once
        (initialState : State) (steps : list (StepSlot State Issue W)) (w : W) :
  execute initialState (map resolveSlot steps) w = execute initialState steps w.
Proof.
  unfold execute. generalize (mkRun w [] [] : Run State Issue W).
  generalize 0. revert initialState.
  induction steps as [|slot rest IH]; intros state i r; [reflexivity|].
  cbn [map runSteps]. unfold bind. rewrite stepBody_resolved.
  destruct (stepBody i slot state r) as [[[st|e] r1]|]; auto.
Qed.
End Controls.

(* ================================================================== *)
(** * More of the audit chain *)
(* ================================================================== *)

Lemma hexDigit_isLowerHex (n : nat) : isLowerHex (hexDigit n) = true.
Proof. do 16 (destruct n as [|n]; [reflexivity|]). reflexivity. Qed.

Lemma Buffer_toHex_allChars (buf : list Byte.byte) :
  allChars isLowerHex (Buffer_toHex buf) = true.
Proof.
  induction buf as [|b rest IH]; [reflexivity|].
  rewrite Buffer_toHex_cons. cbn [allChars].
  now rewrite !hexDigit_isLowerHex, IH.
Qed.

Lemma Buffer_toHex_length (buf : list Byte.byte) :
  String.length (Buffer_toHex buf) = (2 * List.length buf)%nat.
Proof.
  induction buf as [|b rest IH]; [reflexivity|].
  rewrite Buffer_toHex_cons. cbn [String.length List.length]. rewrite IH. lia.
Qed.

Lemma app_inj_length {A} (a b c d : list A) :
  List.length a = List.length b -> a ++ c = b ++ d -> a = b /\ c = d.
Proof.
  revert b. induction a as [|x a IH]; intros [|y b] Hlen E; simpl in *;
    try discriminate.
  - now split.
  - injection E as -> E. injection Hlen as Hlen.
    destruct (IH b Hlen E) as [-> ->]. now split.
Qed.

Section MoreChainFacts.
Context {State Issue : Type} `{Platform State}.
Implicit Types entries pre post : list (AuditEntry State Issue).

(** A non-empty chain ends in a digest. *)
Lemma chainLoop_is_digest entries :
  entries <> [] ->
  forall running, exists message, chainLoop running entries = sha256 message.
Proof.
  induction entries as [|e rest IH]; intros Hne running; [contradiction|].
  simpl. destruct rest as [|e' rest].
  - eexists. reflexivity.
  - apply IH. discriminate.
Qed.

(** The chain reads its entries through their serialized payloads. *)
Lemma chainLoop_serialized entries1 :
  forall entries2 running,
    serializedPayloads entries1 = serializedPayloads entries2 ->
    chainLoop running entries1 = chainLoop running entries2.
Proof.
  induction entries1 as [|e1 rest1 IH]; intros [|e2 rest2] running E;
    simpl in E; try discriminate; [reflexivity|].
  injection E as E1 E. simpl. unfold digest. simpl. rewrite E1. now apply IH.
Qed.

(** With digests of one length and no collision on what the two chains
    feed to SHA-256, chains of equal length that end the same started the
    same and read the same serialized payloads. *)
Lemma chain_injective n entries1 :
  (forall message, List.length (sha256 message) = n) ->
  forall entries2 running1 running2,
    List.length entries1 = List.length entries2 ->
    List.length running1 = List.length running2 ->
    (forall x y,
        In x (chainInputs running1 entries1) -> In y (chainInputs running2 entries2) ->
        sha256 x = sha256 y -> x = y) ->
    chainLoop running1 entries1 = chainLoop running2 entries2 ->
    running1 = running2
    /\ serializedPayloads entries1 = serializedPayloads entries2.
Proof.
  intros Hlen.
  induction entries1 as [|e1 rest1 IH]; intros [|e2 rest2] r1 r2 Hn Hr Hcf E;
    simpl in Hn; try discriminate.
  - simpl in E. now split.
  - injection Hn as Hn. simpl in E. unfold digest in E. simpl in E.
    match type of E with
    | chainLoop ?a1 _ = chainLoop ?a2 _ =>
        assert (Hr' : List.length a1 = List.length a2) by (now rewrite !Hlen);
        assert (Hcf' : forall x y,
                   In x (chainInputs a1 rest1) -> In y (chainInputs a2 rest2) ->
                   sha256 x = sha256 y -> x = y)
          by (intros x y Hx Hy; apply Hcf; simpl; auto);
        destruct (IH rest2 a1 a2 Hn Hr' Hcf' E) as [Hacc Hrest]
    end.
    apply Hcf in Hacc; simpl; auto.
    destruct (app_inj_length _ _ _ _ Hr Hacc) as [-> Hd].
    apply Buffer_from_inj in Hd. split; [reflexivity|].
    simpl. now rewrite Hd, Hrest.
Qed.
End MoreChainFacts.

Section MoreChainProperties.
Context {State Issue : Type} `{Platform State}.

(** X7 -- The root is lowercase hexadecimal, two characters per digest
    byte: every character of every root is one of [0-9a-f]; and when
    digests are 32 bytes long, the root of a non-empty history has 64
    characters, so it is never the root of the empty history. *)
Theorem root_is_lowercase_hex :
  (forall entries : list (AuditEntry State Issue),
      allChars isLowerHex (computeAuditRoot entries) = true)
  /\ (forall entries : list (AuditEntry State Issue),
        (forall message, List.length (sha256 message) = 32%nat) ->
        entries <> [] ->
        String.length (computeAuditRoot entries) = 64%nat
        /\ computeAuditRoot entries <> computeAuditRoot (@nil (AuditEntry State Issue))).
Proof.
  split.
  - intros entries. apply Buffer_toHex_allChars.
  - intros entries Hlen Hne.
    assert (L : String.length (computeAuditRoot entries) = 64%nat).
    { unfold computeAuditRoot. rewrite Buffer_toHex_length.
      destruct (chainLoop_is_digest entries Hne []) as (message & ->).
      now rewrite Hlen. }
    split; [exact L|].
    intros E. rewrite E in L. discriminate.
Qed.

(** X8 -- The chain binds the order and the content of what it hashes: of
    two histories of the same length whose sequences of serialized
    payloads differ -- one entry changed, or entries swapped -- the roots
    differ, provided the digests have one length and SHA-256 does not
    collide on the byte strings it is fed along the two chains. *)
Theorem chain_binds_payload_sequence
        (entries1 entries2 : list (AuditEntry State Issue)) (n : nat) :
  List.length entries1 = List.length entries2 ->
  (forall message, List.length (sha256 message) = n) ->
  (forall x y,
      In x (chainInputs [] entries1) -> In y (chainInputs [] entries2) ->
      sha256 x = sha256 y -> x = y) ->
  serializedPayloads entries1 <> serializedPayloads entries2 ->
  computeAuditRoot entries1 <> computeAuditRoot entries2.
Proof.
  intros Hn Hlen Hcf Hdiff E. apply Hdiff.
  unfold computeAuditRoot in E. apply Buffer_toHex_inj in E.
  now destruct (chain_injective n entries1 Hlen entries2 [] [] Hn eq_refl Hcf E).
Qed.

(** X9 -- The root of a history that has grown depends on the earlier
    entries through their root alone: two histories with the same root,
    extended by entries with the same serialized payloads, have the same
    root again. *)
Theorem root_extends_from_root
        (entries1 entries2 more1 more2 : list (AuditEntry State Issue)) :
  computeAuditRoot entries1 = computeAuditRoot entries2 ->
  serializedPayloads more1 = serializedPayloads more2 ->
  computeAuditRoot (entries1 ++ more1) = computeAuditRoot (entries2 ++ more2).
Proof.
  unfold computeAuditRoot. intros E Hmore.
  apply Buffer_toHex_inj in E.
  rewrite !chainLoop_app, E. f_equal.
  now apply chainLoop_serialized.
Qed.
End MoreChainProperties.

(* ================================================================== *)
(** * The README flow and the demo server *)
(* ================================================================== *)

Section DemoFacts.
Import Demo.

Lemma getProp_setProp_same k v (o : DemoObj) : getProp k (setProp k v o) = Some v.
Proof.
  induction o as [|[k' v'] o IH]; simpl.
  - now rewrite String.eqb_refl.
  - destruct (String.eqb k k') eqn:E; simpl; rewrite E; [reflexivity|exact IH].
Qed.



End DemoFacts.

Section DemoProperties.
Import Demo.
Context {W : Type} `{Host W}.

(** The flow when the draft needs no revision. *)
Lemma demo_flow_as_drafted (s : DemoObj) (w : W) z t w' :
  plusOne (Some (orZero (getProp "value" s))) = Int z ->
  Z.rem z 2 <> 0 ->
  Date_now w = (t, w') ->
  let ds := setProp "draft" (Int z) s in
  execute s [SlotStep demoStep] w
  = Some (Returns ds,
          mkRun w' [acceptedEntry 0 t s ds ds 0]
            [EvDraft 0 s (Returns ds); EvCritique 0 ds (Returns (Arr []))]).
Proof.
  intros Hz Hodd D ds. unfold execute. cbn [runSteps]. unfold bind.
  rewrite (accepted_as_drafted 0 demoStep demoDraft demoCritique demoRevise s
             (mkRun w [] []) ds w (Arr []) w t w'); auto.
  - unfold demoDraft, ds. now rewrite Hz.
  - unfold demoCritique, ds. rewrite getProp_setProp_same. simpl.
    apply Z.eqb_neq in Hodd. now rewrite Hodd.
Qed.


End DemoProperties.

Section ServerProperties.
Import Demo.
Context {W : Type} `{Host W} `{Platform DemoObj} `{ServerJson}.

(** [s2.startsWith(s1)] holds exactly of the strings [s1 + rest]. *)
Lemma prefix_iff_append (s1 s2 : string) :
  String.prefix s1 s2 = true <-> exists rest, s2 = String.append s1 rest.
Proof.
  revert s2. induction s1 as [|a s1 IH]; intros s2.
  - destruct s2; simpl; split; eauto.
  - destruct s2 as [|b s2]; simpl.
    + split; [discriminate|]. intros (rest & E). discriminate.
    + destruct (ascii_dec a b) as [->|Hne].
      * rewrite IH. split; intros (rest & E); exists rest.
        -- now rewrite E.
        -- now injection E.
      * split; [discriminate|]. intros (rest & E). injection E as E _.
        now contradiction Hne.
Qed.

(** The flow of the server, from [{ value: 0 }]. *)
Lemma server_flow (w : W) t w' :
  Date_now w = (t, w') ->
  let ds := [("value", Int 0); ("draft", Int 1)] in
  execute [("value", Int 0)] [SlotStep demoStep] w
  = Some (Returns ds,
          mkRun w' [acceptedEntry 0 t [("value", Int 0)] ds ds 0]
            [EvDraft 0 [("value", Int 0)] (Returns ds);
             EvCritique 0 ds (Returns (Arr []))]).
Proof.
  intros D ds.
  apply (demo_flow_as_drafted [("value", Int 0)] w 1 t w'); auto.
  discriminate.
Qed.

(** X11 -- The demo server: the listener answers every request. A request
    that is not a GET for a URL starting with [/run] (whatever follows
    those four characters) gets the 404 [Not Found] text and leaves the
    world as it was. A GET for such a URL gets status 200, never 500, with
    a JSON body whose [content-length] is its byte length: the report of
    the final state [{ value: 0, draft: 1 }], one audit entry, and the
    root of that one [draft:accepted] entry. *)
Theorem server_answers (req : Request) (w : W) :
  (isRunRequest req = true
   <-> method req = "GET"
       /\ exists rest, url req = Some (String.append "/run" rest))
  /\ exists resp w',
      requestListener req w = Some (resp, w')
      /\ statusCode resp <> 500
      /\ (isRunRequest req = false ->
            resp = {| statusCode := 404; contentType := "text/plain";
                      contentLength := None;
                      body := String.append "Not Found" newline |}
            /\ w' = w)
      /\ (isRunRequest req = true ->
            let ds := [("value", Int 0); ("draft", Int 1)] in
            statusCode resp = 200
            /\ contentType resp = "application/json"
            /\ contentLength resp = Some (Buffer_byteLength (body resp))
            /\ body resp
               = JSON_stringify_report
                   {| result := ds;
                      auditEntries := 1;
                      reportRoot :=
                        computeAuditRoot
                          ([acceptedEntry 0 (fst (Date_now w)) [("value", Int 0)] ds ds 0]
                           : list (AuditEntry DemoObj string)) |}
            /\ w' = snd (Date_now w)).
Proof.
  split.
  - unfold isRunRequest. destruct req as [m [u|]]; simpl.
    + rewrite andb_true_iff, andb_true_iff, String.eqb_eq, negb_true_iff,
        prefix_iff_append.
      split.
      * intros (Hm & _ & rest & ->). split; [exact Hm|]. now exists rest.
      * intros (Hm & rest & E). injection E as ->.
        split; [exact Hm|]. split; [reflexivity|]. now exists rest.
    + rewrite andb_false_r. split; [discriminate|].
      intros (_ & rest & E). discriminate.
  - unfold requestListener. destruct (isRunRequest req).
    + destruct (Date_now w) as [t w'] eqn:D.
      rewrite (server_flow w t w' D).
      eexists; eexists. split; [reflexivity|]. simpl.
      split; [discriminate|]. split; [discriminate|].
      intros _. repeat split.
    + eexists; eexists. split; [reflexivity|]. simpl.
      split; [discriminate|]. split; [|discriminate].
      intros _. split; reflexivity.
Qed.
End ServerProperties.

(* ================================================================== *)
(** * The further properties at the fixtures *)
(* ================================================================== *)

Lemma bytesOfN_length (n : nat) (x : N) : List.length (Fixtures.bytesOfN n x) = n.
Proof.
  revert x. induction n as [|n IH]; intros x; simpl; [reflexivity|].
  destruct (Byte.of_N (x mod 256)); simpl; now rewrite IH.
Qed.

Lemma checksum32_length (message : list Byte.byte) :
  List.length (Fixtures.checksum32 message) = 32%nat.
Proof. apply bytesOfN_length. Qed.

Section FixtureWitnesses.
Import Scenarios Fixtures.

(** A critique that throws after one revision, and a revise that throws on
    its second call. *)
Lemma failure_is_recorded_once_witness :
  (exists en evs,
      auditHistory failedCritiqueRun = [] ++ [en]
      /\ calls failedCritiqueRun = [] ++ evs
      /\ stepIndex en = 0
      /\ error en = Some "boom"
      /\ inputState en = Some []
      /\ finalState en = None
      /\ iterations en = None
      /\ ((phase en = "invalid" /\ evs = []
           /\ NonError "boom" = ErrorObj "TypeError" (invalidMessage 0)
           /\ draftState en = None /\ critiques en = None)
          \/ (phase en = "draft:error" /\ evs = [EvDraft 0 [] (Throws (NonError "boom"))]
              /\ draftState en = None /\ critiques en = None)
          \/ (exists evs0 cand,
                 phase en = "critique:error"
                 /\ evs = evs0 ++ [EvCritique 0 cand (Throws (NonError "boom"))]
                 /\ draftState en = Some cand /\ critiques en = None)
          \/ (exists ds evs0 cand issues,
                 phase en = "revise:error"
                 /\ evs = EvDraft 0 [] (Returns ds) :: evs0
                          ++ [EvCritique 0 cand (Returns (Arr issues));
                              EvRevise 0 cand issues [] (Throws (NonError "boom"))]
                 /\ issues <> []
                 /\ draftState en = Some ds /\ critiques en = Some (Arr issues))))
  /\ exists en evs,
      auditHistory failedReviseRun = [] ++ [en]
      /\ calls failedReviseRun = [] ++ evs
      /\ error en = Some "cannot revise".
Proof.
  split.
  - exact (failure_is_recorded_once 0 (SlotStep failingCritiqueStep) []
             (mkRun 100 [] []) (NonError "boom") failedCritiqueRun eq_refl).
  - assert (E : stepBody 0 (SlotStep failingReviseStep) [] (mkRun 100 [] [])
                = Some (Throws (ErrorObj "Error" "cannot revise"), failedReviseRun))
      by reflexivity.
    destruct (failure_is_recorded_once 0 (SlotStep failingReviseStep) []
                (mkRun 100 [] []) (ErrorObj "Error" "cannot revise")
                failedReviseRun E)
      as (en & evs & Hh & Hc & _ & Herr & _).
    exists en, evs. repeat split; assumption.
Defined.

(** Two steps that settle: one accepted as drafted, one capped. *)
Lemma resolved_run_history_witness :
  List.length (auditHistory twoStepRun) = 2%nat
  /\ map stepIndex (auditHistory twoStepRun) = indicesFrom 0 2
  /\ Forall (fun en => settledPhase (phase en)) (auditHistory twoStepRun)
  /\ threads [] (auditHistory twoStepRun) [("ok", 1); ("v", 2)].
Proof.
  exact (resolved_run_history [] [SlotStep passThroughStep; SlotStep cappingStep] 100
           [("ok", 1); ("v", 2)] twoStepRun eq_refl).
Defined.

(** A sound step, then a malformed one. *)
Lemma rejected_run_history_witness :
  exists good en reached,
    auditHistory malformedRun = good ++ [en]
    /\ map stepIndex good = indicesFrom 0 (List.length good)
    /\ Forall (fun en => settledPhase (phase en)) good
    /\ threads [] good reached
    /\ stepIndex en = Z.of_nat (List.length good)
    /\ (List.length good < 2)%nat
    /\ failurePhase (phase en)
    /\ error en
       = Some "Step 1 is invalid. Expected functions: draft, critique, revise."
    /\ inputState en = Some reached
    /\ finalState en = None.
Proof.
  exact (rejected_run_history [] [SlotStep soundStep; SlotStep malformedStep] 100
           (ErrorObj "TypeError"
              "Step 1 is invalid. Expected functions: draft, critique, revise.")
           malformedRun eq_refl).
Defined.

(** A one-entry history under the 32-byte stand-in digest. *)
Lemma root_is_lowercase_hex_witness :
  allChars isLowerHex (@computeAuditRoot Obj string checksumPlatform [entryA]) = true
  /\ String.length (@computeAuditRoot Obj string checksumPlatform [entryA]) = 64%nat
  /\ @computeAuditRoot Obj string checksumPlatform [entryA]
     <> @computeAuditRoot Obj string checksumPlatform [].
Proof.
  split.
  - exact (proj1 (@root_is_lowercase_hex Obj string checksumPlatform) [entryA]).
  - apply (proj2 (@root_is_lowercase_hex Obj string checksumPlatform) [entryA]).
    + exact checksum32_length.
    + discriminate.
Defined.

(** Two entries, and the same two swapped. *)
Lemma chain_binds_payload_sequence_witness :
  @computeAuditRoot Obj string checksumPlatform [entryA; entryC]
  <> @computeAuditRoot Obj string checksumPlatform [entryC; entryA].
Proof.
  apply (@chain_binds_payload_sequence Obj string checksumPlatform
           [entryA; entryC] [entryC; entryA] 32 eq_refl checksum32_length).
  - intros x y Hx Hy E. vm_compute in Hx, Hy.
    destruct Hx as [<-|[<-|[]]], Hy as [<-|[<-|[]]];
      vm_compute in E; discriminate E.
  - vm_compute. discriminate.
Defined.

(** Two histories with one root, each extended by the same entry. *)
Lemma root_extends_from_root_witness :
  computeAuditRoot ([entryA] ++ [entryC]) = computeAuditRoot ([entryB] ++ [entryC]).
Proof.
  exact (root_extends_from_root [entryA] [entryB] [entryC] [entryC] eq_refl eq_refl).
Defined.
End FixtureWitnesses.
